(** * GPQA evaluation harness: [evaluation/gpqa/run_infer.py]

    A shallow embedding of the single-instance evaluation pipeline of
    OpenDevin's GPQA benchmark driver, and the properties of its answer
    extractor, scorer, instance preparer, workspace isolation and
    driver.

    Python values are modelled as follows.
    - [str] is a sequence of Unicode code points, each an [N].
    - A [dict] with string keys is a [gmap str _].
    - Functions that can raise return an [outcome]; functions that also
      read or write shared state live in the monad [M]. *)

From Stdlib Require Import NArith Ascii String Decimal DecimalN DecimalPos.
From stdpp Require Import base numbers option list gmap.

#[local] Open Scope N_scope.
#[local] Open Scope list_scope.

(** ** Python strings *)

(** A Python [str]: the sequence of its code points. *)
Abbreviation str := (list N).

(** An ASCII literal of the source as a [str]. *)
Definition py (x : string) : str :=
  N_of_ascii <$> list_ascii_of_string x.

(** [str.startswith] returning the rest of the string after the prefix. *)
Fixpoint strip_prefix (lit s : str) : option str :=
  match lit, s with
  | [], _ => Some s
  | _ :: _, [] => None
  | a :: lit', b :: s' => if N.eqb a b then strip_prefix lit' s' else None
  end.

(** [==] on two strings: same length and the same code point at every
    position. *)
Fixpoint str_eq (a b : str) : bool :=
  match a, b with
  | [], [] => true
  | x :: a', y :: b' => N.eqb x y && str_eq a' b'
  | _, _ => false
  end.

(** [str.isspace] on one code point: the characters [str.strip()] removes
    (CPython's [_Py_ascii_whitespace] and [_PyUnicode_IsWhitespace]). *)
Definition is_space (c : N) : bool :=
  ((0x09 <=? c) && (c <=? 0x0D)) || ((0x1C <=? c) && (c <=? 0x20))
  || (c =? 0x85) || (c =? 0xA0) || (c =? 0x1680)
  || ((0x2000 <=? c) && (c <=? 0x200A))
  || (c =? 0x2028) || (c =? 0x2029) || (c =? 0x202F) || (c =? 0x205F)
  || (c =? 0x3000).

Fixpoint lstrip (s : str) : str :=
  match s with
  | c :: s' => if is_space c then lstrip s' else s
  | [] => []
  end.

Definition rstrip (s : str) : str := rev (lstrip (rev s)).

(** [str.strip()] with no argument. *)
Definition py_strip (s : str) : str := rstrip (lstrip s).

(** ** Regular expressions, as far as [parse_final_answer] uses them *)

(** The pattern language: literals and one lazily repeated [.] inside a
    capturing group, [(.*?)]. *)
Inductive re_item :=
  | Lit (l : str)
  | LazyDotStarGroup.

Definition newline : N := 10.

(** What [.] matches: everything with [re.DOTALL], everything but a
    newline without it. *)
Definition dot_matches (dotall : bool) (c : N) : bool :=
  dotall || negb (c =? newline).

(** Backtracking match of the items at the start of [s].  The lazy group
    first tries the rest of the pattern with what it has captured so far,
    and takes one more character only when that fails.  The result is the
    text of group 1, when the pattern has one. *)
Fixpoint re_match (dotall : bool) (items : list re_item) (s : str)
    (group : option str) : option (option str) :=
  match items with
  | [] => Some group
  | Lit l :: rest =>
      match strip_prefix l s with
      | Some s' => re_match dotall rest s' group
      | None => None
      end
  | LazyDotStarGroup :: rest =>
      (fix lazy (captured : str) (t : str) : option (option str) :=
         match re_match dotall rest t (Some (rev captured)) with
         | Some r => Some r
         | None =>
             match t with
             | c :: t' =>
                 if dot_matches dotall c then lazy (c :: captured) t' else None
             | [] => None
             end
         end) [] s
  end.

(** [pattern.search]: the match at the leftmost position that has one. *)
Fixpoint re_search (dotall : bool) (items : list re_item) (s : str)
    : option (option str) :=
  match re_match dotall items s None with
  | Some r => Some r
  | None =>
      match s with
      | _ :: s' => re_search dotall items s'
      | [] => None
      end
  end.

(** ** AnswerExtractor and Scorer *)

Definition FINAL_ANSWER_OPEN : str := py "<<FINAL_ANSWER||".
Definition FINAL_ANSWER_CLOSE : str := py "||FINAL_ANSWER>>".

(** [re.compile(r'<<FINAL_ANSWER\|\|(.*?)\|\|FINAL_ANSWER>>', re.DOTALL)] *)
Definition pattern : list re_item :=
  [Lit FINAL_ANSWER_OPEN; LazyDotStarGroup; Lit FINAL_ANSWER_CLOSE].

Definition NO_FINAL_ANSWER : str :=
  py "No final answer found in the provided string.".

Definition parse_final_answer (final_answer : str) : str :=
  match re_search true pattern final_answer with
  | Some (Some group1) => py_strip group1
  | _ => NO_FINAL_ANSWER
  end.

Definition compare_answers (predicted_answer ground_truth : str) : bool :=
  str_eq predicted_answer ground_truth.

Definition get_test_result (model_output ground_truth : str) : bool :=
  let predicted_answer := parse_final_answer model_output in
  let result := compare_answers predicted_answer ground_truth in
  result.

(** ** Exceptions and the state-and-exception monad *)

(** The exceptions this file can see.  [OtherException] stands for any
    other subclass of [Exception] a collaborator may raise,
    [OtherBaseException] for those outside [Exception]
    ([KeyboardInterrupt], [SystemExit]). *)
Inductive exn :=
  | KeyError (key : str)
  | IndexError
  | ValueError
  | TypeError
  | AssertionError (msg : str)
  | FileExistsError
  | FileNotFoundError
  | OtherException (name : str)
  | OtherBaseException (name : str).

(** [isinstance(e, Exception)] *)
Definition is_Exception (e : exn) : bool :=
  match e with
  | OtherBaseException _ => false
  | _ => true
  end.

Inductive outcome (A : Type) :=
  | Ok (a : A)
  | Raise (e : exn).
Arguments Ok {A} a.
Arguments Raise {A} e.

(** A computation over the state [S]: it returns or raises, and either
    way leaves a state behind. *)
Definition M (S A : Type) : Type := S -> outcome A * S.

Definition ret {S A} (a : A) : M S A := fun s => (Ok a, s).

Definition raise {S A} (e : exn) : M S A := fun s => (Raise e, s).

Definition bind {S A B} (m : M S A) (k : A -> M S B) : M S B :=
  fun s =>
    match m s with
    | (Ok a, s') => k a s'
    | (Raise e, s') => (Raise e, s')
    end.

Notation "'let*' x ':=' m 'in' k" := (bind m (fun x => k))
  (at level 10, x binder, m at level 200, k at level 200).

Definition lift {S A} (o : outcome A) : M S A := fun s => (o, s).

Definition get {S} : M S S := fun s => (Ok s, s).

Definition modify {S} (f : S -> S) : M S unit := fun s => (Ok tt, f s).

(** [try: body except Exception: handler] *)
Definition try_except {S A} (body : M S A) (handler : exn -> M S A) : M S A :=
  fun s =>
    match body s with
    | (Raise e, s') => if is_Exception e then handler e s' else (Raise e, s')
    | r => r
    end.

(** [try: body finally: fin].  The [finally] block runs on every exit of
    the body; an exception of its own replaces the body's result. *)
Definition try_finally {S A} (body : M S A) (fin : M S unit) : M S A :=
  fun s =>
    let '(r, s') := body s in
    match fin s' with
    | (Ok _, s'') => (r, s'')
    | (Raise e, s'') => (Raise e, s'')
    end.

(** ** Builtins *)

(** [d[key]] on a dict *)
Definition getitem {V} (d : gmap str V) (key : str) : outcome V :=
  match d !! key with
  | Some v => Ok v
  | None => Raise (KeyError key)
  end.

(** [d.get(key)] on a dict: [None] when the key is absent *)
Definition dict_get {V} (d : gmap str V) (key : str) : option V := d !! key.

(** [l[i]] on a list *)
Definition list_getitem {A} (l : list A) (i : nat) : outcome A :=
  match l !! i with
  | Some v => Ok v
  | None => Raise IndexError
  end.

(** [l.index(x)]: the first position whose element equals [x] *)
Fixpoint index_from (x : str) (l : list str) (i : nat) : option nat :=
  match l with
  | [] => None
  | y :: l' => if str_eq y x then Some i else index_from x l' (S i)
  end.

Definition list_index (l : list str) (x : str) : outcome nat :=
  match index_from x l 0 with
  | Some i => Ok i
  | None => Raise ValueError
  end.

(** [chr(i)] *)
Definition py_chr (i : N) : outcome str :=
  if i <? 0x110000 then Ok [i] else Raise ValueError.

(** [ord(c)] *)
Definition py_ord (c : str) : outcome N :=
  match c with
  | [x] => Ok x
  | _ => Raise TypeError
  end.

Fixpoint uint_to_str (d : Decimal.uint) : str :=
  match d with
  | Nil => []
  | D0 d => 48 :: uint_to_str d
  | D1 d => 49 :: uint_to_str d
  | D2 d => 50 :: uint_to_str d
  | D3 d => 51 :: uint_to_str d
  | D4 d => 52 :: uint_to_str d
  | D5 d => 53 :: uint_to_str d
  | D6 d => 54 :: uint_to_str d
  | D7 d => 55 :: uint_to_str d
  | D8 d => 56 :: uint_to_str d
  | D9 d => 57 :: uint_to_str d
  end.

(** [str(n)] for a non-negative [int] *)
Definition str_of_int (n : N) : str := uint_to_str (N.to_uint n).

(** ** InstancePreparer *)

(** The random source behind the [random] module: [randbelow n] is
    [Random._randbelow(n)], a draw from [range(n)]. *)
Class RandomSource := {
  rng : Type;
  randbelow : nat -> rng -> nat * rng;
  randbelow_lt : forall n g, (0 < n)%nat -> (fst (randbelow n g) < n)%nat
}.

(** A random source that replays a tape of numbers. *)
Definition tape_randbelow (n : nat) (g : list nat) : nat * list nat :=
  match g with
  | [] => (0%nat, [])
  | r :: g' => ((r mod n)%nat, g')
  end.

Section Prepare.
Context {RS : RandomSource}.

(** [x[i], x[j] = x[j], x[i]]: the right-hand side is read first, then
    [x[i]] and [x[j]] are stored in that order. *)
Definition swap_items {A} (x : list A) (i j : nat) : outcome (list A) :=
  match x !! j, x !! i with
  | Some xj, Some xi => Ok (<[j := xi]> (<[i := xj]> x))
  | _, _ => Raise IndexError
  end.

(** The loop of [random.shuffle], [for i in reversed(range(1, len(x)))],
    entered at [i]. *)
Fixpoint shuffle_loop {A} (i : nat) (x : list A) : M rng (list A) :=
  match i with
  | O => ret x
  | S i' =>
      let* j := (fun g => let '(j, g') := randbelow (i + 1) g in (Ok j, g')) in
      let* x' := lift (swap_items x i j) in
      shuffle_loop i' x'
  end.

(** [random.shuffle(x)] *)
Definition shuffle {A} (x : list A) : M rng (list A) :=
  shuffle_loop (length x - 1) x.

(** The dict [convert_instance_dict] returns. *)
Record OutInstance := {
  question : str;
  choices : list str;
  correct_solution : str
}.

Definition convert_instance_dict (instance : gmap str str) : M rng OutInstance :=
  let* out_question := lift (getitem instance (py "Question")) in
  let* correct_answer := lift (getitem instance (py "Correct Answer")) in
  let* incorrect1 := lift (getitem instance (py "Incorrect Answer 1")) in
  let* incorrect2 := lift (getitem instance (py "Incorrect Answer 2")) in
  let* incorrect3 := lift (getitem instance (py "Incorrect Answer 3")) in
  let out_choices := [correct_answer; incorrect1; incorrect2; incorrect3] in
  let* out_choices := shuffle out_choices in
  let* correct_index := lift (list_index out_choices correct_answer) in
  let* correct_letter := lift (py_chr (65 + N.of_nat correct_index)) in
  ret {| question := out_question;
         choices := out_choices;
         correct_solution := correct_letter |}.

End Prepare.

(** ** Paths and the directory tree *)

Definition sep : N := 47.

Definition starts_with_sep (s : str) : bool :=
  match s with
  | c :: _ => c =? sep
  | [] => false
  end.

Definition ends_with_sep (s : str) : bool := starts_with_sep (rev s).

Definition is_empty (s : str) : bool :=
  match s with
  | [] => true
  | _ => false
  end.

(** One round of the loop of [posixpath.join]. *)
Definition join_step (path b : str) : str :=
  if starts_with_sep b then b
  else if is_empty path || ends_with_sep path then path ++ b
  else path ++ [sep] ++ b.

(** [os.path.join(a, *p)] *)
Definition os_path_join (a : str) (p : list str) : str :=
  fold_left join_step p a.

(** [s.split('/')] *)
Fixpoint split_sep (s : str) : list str :=
  match s with
  | [] => [[]]
  | c :: s' =>
      if c =? sep then [] :: split_sep s'
      else match split_sep s' with
           | seg :: segs => (c :: seg) :: segs
           | [] => [[c]]
           end
  end.

(** The segments [pathlib] keeps as parts: not empty and not [.]. *)
Definition is_part (seg : str) : bool :=
  negb (str_eq seg []) && negb (str_eq seg (py ".")).

Fixpoint leading_seps (s : str) : nat :=
  match s with
  | c :: s' => if c =? sep then S (leading_seps s') else O
  | [] => O
  end.

(** The root of a POSIX path: none ([0]), [/] ([1]) or exactly two
    slashes ([2]). *)
Definition path_root (s : str) : nat :=
  match leading_seps s with
  | 0%nat => 0%nat
  | 2%nat => 2%nat
  | _ => 1%nat
  end.

(** A parsed path: its root and its parts. *)
Abbreviation PurePath := (nat * list str)%type.

(** [pathlib.Path(s)] *)
Definition Path (s : str) : PurePath :=
  (path_root s, List.filter is_part (split_sep s)).

(** [p / name], for a [name] that is one part. *)
Definition path_child (p : PurePath) (name : str) : PurePath :=
  (p.1, p.2 ++ [name]).

(** The directories that exist, apart from the roots and the current
    directory, which always do.  Regular files, links and permissions are
    not part of this model. *)
Abbreviation Dirs := (gset (nat * list str)).

Definition is_dir (p : PurePath) (fs : Dirs) : bool :=
  match p.2 with
  | [] => true
  | _ => bool_decide (p ∈ fs)
  end.

(** [os.mkdir(p)]: the directory must be new and its parent must exist. *)
Definition os_mkdir (p : PurePath) : M Dirs unit :=
  fun fs =>
    if is_dir p fs then (Raise FileExistsError, fs)
    else if is_dir (p.1, removelast p.2) fs then (Ok tt, {[ p ]} ∪ fs)
    else (Raise FileNotFoundError, fs).

(** [Path.mkdir(parents=False, exist_ok=...)] *)
Definition Path_mkdir_here (p : PurePath) (exist_ok : bool) : M Dirs unit :=
  fun fs =>
    match os_mkdir p fs with
    | (Raise FileNotFoundError, fs') => (Raise FileNotFoundError, fs')
    | (Raise e, fs') =>
        if exist_ok && is_dir p fs' then (Ok tt, fs') else (Raise e, fs')
    | r => r
    end.

(** [Path.mkdir(parents=..., exist_ok=...)] on the path with the given
    root and the parts [rev rparts]: when the parent is missing and
    [parents] is set, the parent is made first (with [parents=True,
    exist_ok=True]) and the directory itself after it. *)
Fixpoint Path_mkdir_rev (root : nat) (rparts : list str)
    (parents exist_ok : bool) : M Dirs unit :=
  fun fs =>
    match os_mkdir (root, rev rparts) fs with
    | (Raise FileNotFoundError, fs') =>
        match rparts with
        | _ :: rparent =>
            if parents then
              match Path_mkdir_rev root rparent true true fs' with
              | (Ok _, fs'') => Path_mkdir_here (root, rev rparts) exist_ok fs''
              | r => r
              end
            else (Raise FileNotFoundError, fs')
        | [] => (Raise FileNotFoundError, fs')
        end
    | (Raise e, fs') =>
        if exist_ok && is_dir (root, rev rparts) fs' then (Ok tt, fs')
        else (Raise e, fs')
    | r => r
    end.

Definition Path_mkdir (p : PurePath) (parents exist_ok : bool) : M Dirs unit :=
  Path_mkdir_rev p.1 (rev p.2) parents exist_ok.

(** ** The driver's data *)

(** The two fields of the shared [config] object the driver touches. *)
Record Config := {
  workspace_base : str;
  workspace_mount_path : str
}.

Record Agent := { class_name : str }.

Record EvalMetadata := {
  agent_class : str;
  llm_config : str;
  max_iterations : N;
  eval_output_dir : str
}.

(** A row of the prepared dataset: what [convert_instance_dict] made, and
    the two id columns. *)
Record EvalInstance := {
  prepared : OutInstance;
  instance_id : N;
  task_id : N
}.

(** The callbacks of [evaluation.utils.shared]. *)
Inductive UserResponseFn :=
  | codeact_user_response
  | monologue_user_response.

(** The calls the driver makes on the logger. *)
Inductive LoggerCall :=
  | RemoveAllHandlers
  | AddConsoleHandler
  | AddFileHandler (log_file : str)
  | LogInfo (msg : str)
  | LogError (msg : str).

Definition nl : str := [newline].
Definition dquote : str := [34].
Definition indent : str := py "        ".

Definition CODEACT_SUFFIX : str :=
  nl ++ nl ++ py " SUPER IMPORTANT: When you think you have solved the question, first report it back to the user in the requested format. Only once that is done, in the next turn, please run the following command: <execute_bash> exit </execute_bash>." ++ nl.

Definition AGENT_CLS_TO_FAKE_USER_RESPONSE_FN : gmap str UserResponseFn :=
  <[ py "CodeActAgent" := codeact_user_response ]>
  (<[ py "MonologueAgent" := monologue_user_response ]> ∅).

Definition AGENT_CLS_TO_INST_SUFFIX : gmap str str :=
  <[ py "CodeActAgent" := CODEACT_SUFFIX ]> ∅.

(** The terminal [State] of the agent loop, as far as the driver reads
    it: [history.get_last_agent_message()], [metrics],
    [history.compatibility_for_eval_history_pairs()] and [last_error]. *)
Record State := {
  last_agent_message : str;
  metrics : option (gmap str str);
  history_pairs : list (str * str);
  last_error : option str
}.

(** The [output] dict of [process_instance]. *)
Record Output := {
  out_task_id : N;
  out_instance_id : N;
  out_instruction : str;
  out_metadata : EvalMetadata;
  out_history : list (str * str);
  out_metrics : option (gmap str str);
  out_error : option str;
  out_test_result : bool
}.

(** What one process shares: the [config] object, the directory tree, its
    process id, and the state [E] of everything else (logger, language
    model, sandbox). *)
Record World (E : Type) := {
  config : Config;
  dirs : Dirs;
  getpid : N;
  ext_state : E
}.
Arguments config {E} _.
Arguments dirs {E} _.
Arguments getpid {E} _.
Arguments ext_state {E} _.

(** The collaborators the driver imports: [Agent.get_cls(..)(llm=LLM(..))],
    the logger, and [run_agent_controller] under [asyncio.run].  Each may
    raise; the agent loop may change anything in the world. *)
Class Collaborators := {
  ext : Type;
  create_agent : str -> str -> M ext Agent;
  logger : LoggerCall -> M ext unit;
  run_agent_controller :
    Agent -> str -> N -> option UserResponseFn -> N -> M (World ext) (option State)
}.

(** The arguments of one call of the agent loop, and the world it was
    entered in. *)
Record AgentLoopCall (E : Type) := {
  call_agent : Agent;
  call_instruction : str;
  call_max_iterations : N;
  call_fake_user_response_fn : option UserResponseFn;
  call_sid : N;
  call_world : World E
}.
Arguments call_agent {E} _.
Arguments call_instruction {E} _.
Arguments call_max_iterations {E} _.
Arguments call_fake_user_response_fn {E} _.
Arguments call_sid {E} _.
Arguments call_world {E} _.

(** The world together with the record of the agent-loop calls made so
    far, latest first. *)
Record Machine (E : Type) := {
  world : World E;
  agent_loop_calls : list (AgentLoopCall E)
}.
Arguments world {E} _.
Arguments agent_loop_calls {E} _.

(** ** InstructionBuilder *)

(** The f-string of [process_instance] followed by the suffix of the
    agent's class. *)
Definition build_instruction (instance : EvalInstance) (agent : Agent)
    : outcome str :=
  let q := question (prepared instance) in
  match list_getitem (choices (prepared instance)) 0,
        list_getitem (choices (prepared instance)) 1,
        list_getitem (choices (prepared instance)) 2,
        list_getitem (choices (prepared instance)) 3 with
  | Ok c0, Ok c1, Ok c2, Ok c3 =>
      let instruction :=
        nl ++ indent ++ py "What is the correct answer to this question:" ++ nl ++ nl
        ++ indent ++ q ++ nl ++ nl
        ++ nl
        ++ indent ++ py "Choices:" ++ nl ++ nl
        ++ indent ++ py "(A) " ++ c0 ++ nl ++ nl
        ++ indent ++ py "(B) " ++ c1 ++ nl ++ nl
        ++ indent ++ py "(C) " ++ c2 ++ nl ++ nl
        ++ indent ++ py "(D) " ++ c3 ++ nl ++ nl
        ++ indent ++ nl ++ nl ++ nl
        ++ nl
        ++ indent ++ py "MOST IMPORTANT: Format your response as follows:" ++ nl
        ++ indent ++ py "<<FINAL_ANSWER||" ++ nl
        ++ indent ++ py "<insert correct answer here, must be one of A, B, C, D> (Please dont use any additional characters. Just the letter of the correct answer (A/B/C/D).)" ++ nl
        ++ indent ++ py "||FINAL_ANSWER>>" ++ nl
        ++ nl
        ++ indent ++ py "Additional Instructions:" ++ nl
        ++ indent ++ py "- You should ONLY interact with the environment provided to you AND NEVER ASK FOR HUMAN HELP." ++ nl
        ++ indent in
      match getitem AGENT_CLS_TO_INST_SUFFIX (class_name agent) with
      | Ok suffix => Ok (instruction ++ suffix)
      | Raise e => Raise e
      end
  | Raise e, _, _, _ => Raise e
  | _, Raise e, _, _ => Raise e
  | _, _, Raise e, _ => Raise e
  | _, _, _, Raise e => Raise e
  end.

(** ** EvaluationDriver *)

Section Driver.
Context {C : Collaborators}.

Definition on_world {A} (m : M (World ext) A) : M (Machine ext) A :=
  fun s =>
    let '(r, w) := m (world s) in
    (r, {| world := w; agent_loop_calls := agent_loop_calls s |}).

Definition on_ext {A} (m : M ext A) : M (Machine ext) A :=
  on_world (fun w =>
    let '(r, e) := m (ext_state w) in
    (r, {| config := config w; dirs := dirs w; getpid := getpid w;
           ext_state := e |})).

Definition on_dirs {A} (m : M Dirs A) : M (Machine ext) A :=
  on_world (fun w =>
    let '(r, d) := m (dirs w) in
    (r, {| config := config w; dirs := d; getpid := getpid w;
           ext_state := ext_state w |})).

Definition read_config : M (Machine ext) Config :=
  on_world (fun w => (Ok (config w), w)).

Definition os_getpid : M (Machine ext) N :=
  on_world (fun w => (Ok (getpid w), w)).

Definition write_config (f : Config -> Config) : M (Machine ext) unit :=
  on_world (fun w =>
    (Ok tt, {| config := f (config w); dirs := dirs w; getpid := getpid w;
               ext_state := ext_state w |})).

(** [config.workspace_base = v] *)
Definition set_workspace_base (v : str) : M (Machine ext) unit :=
  write_config (fun c =>
    {| workspace_base := v; workspace_mount_path := workspace_mount_path c |}).

(** [config.workspace_mount_path = v] *)
Definition set_workspace_mount_path (v : str) : M (Machine ext) unit :=
  write_config (fun c =>
    {| workspace_base := workspace_base c; workspace_mount_path := v |}).

(** The path of the process-specific workspace below [base]. *)
Definition eval_workspace_path (base : str) (pid : N) : str :=
  let workspace_mount_path' := os_path_join base [py "_eval_workspace"] in
  os_path_join workspace_mount_path' [str_of_int pid].

(** Lines 127-136: derive the workspace path, create the directory and
    point the shared configuration at it. *)
Definition setup_workspace : M (Machine ext) str :=
  let* cfg := read_config in
  let* pid := os_getpid in
  let workspace_mount_path' := eval_workspace_path (workspace_mount_path cfg) pid in
  let* _ := on_dirs (Path_mkdir (Path workspace_mount_path') true true) in
  let* _ := set_workspace_base workspace_mount_path' in
  let* _ := set_workspace_mount_path workspace_mount_path' in
  ret workspace_mount_path'.

(** Lines 139-161: the logger set-up. *)
Definition setup_logger (instance : EvalInstance) (metadata : EvalMetadata)
    (reset_logger : bool) : M (Machine ext) unit :=
  let id := str_of_int (instance_id instance) in
  if reset_logger then
    let log_file :=
      os_path_join (eval_output_dir metadata)
        [py "logs"; py "instance_" ++ id ++ py ".log"] in
    let* _ := on_ext (logger RemoveAllHandlers) in
    let* _ := on_ext (logger AddConsoleHandler) in
    let* _ := on_ext (logger (LogInfo
      (py "Starting evaluation for instance " ++ id ++ py "." ++ nl
       ++ py "Hint: run " ++ dquote ++ py "tail -f " ++ log_file ++ dquote
       ++ py " to see live logs in a separate shell"))) in
    let* _ := on_ext (logger RemoveAllHandlers) in
    on_ext (logger (AddFileHandler log_file))
  else
    on_ext (logger (LogInfo
      (py "Starting evaluation for instance " ++ id ++ py "."))).

(** Lines 191-202: run the agent loop and assert it returned a state.
    The call and the world it starts in are recorded. *)
Definition invoke_agent (instance : EvalInstance) (metadata : EvalMetadata)
    (agent : Agent) (instruction : str) : M (Machine ext) State :=
  let fake_user_response_fn :=
    dict_get AGENT_CLS_TO_FAKE_USER_RESPONSE_FN (class_name agent) in
  let* state := (fun s =>
    let call := {| call_agent := agent;
                   call_instruction := instruction;
                   call_max_iterations := max_iterations metadata;
                   call_fake_user_response_fn := fake_user_response_fn;
                   call_sid := instance_id instance;
                   call_world := world s |} in
    let '(r, w) := run_agent_controller agent instruction
                     (max_iterations metadata) fake_user_response_fn
                     (instance_id instance) (world s) in
    (r, {| world := w; agent_loop_calls := call :: agent_loop_calls s |})) in
  match state with
  | Some st => ret st
  | None => raise (AssertionError (py "State should not be None."))
  end.

(** Lines 206-234: extract, score and assemble the output.  The second
    [state is None] test of the source cannot fire after the assertion. *)
Definition evaluate (instance : EvalInstance) (metadata : EvalMetadata)
    (instruction : str) (state : State) : M (Machine ext) Output :=
  let final_message := last_agent_message state in
  let* _ := on_ext (logger (LogInfo
    (py "Final message generated by the agent: " ++ final_message))) in
  let test_result :=
    get_test_result final_message (correct_solution (prepared instance)) in
  let histories := history_pairs state in
  ret {| out_task_id := task_id instance;
         out_instance_id := instance_id instance;
         out_instruction := instruction;
         out_metadata := metadata;
         out_history := histories;
         out_metrics := metrics state;
         out_error := match last_error state with
                      | Some (c :: e) => Some (c :: e)
                      | _ => None
                      end;
         out_test_result := test_result |}.

(** The body of the [try] statement. *)
Definition process_instance_body (instance : EvalInstance)
    (metadata : EvalMetadata) (reset_logger : bool) (agent : Agent)
    : M (Machine ext) Output :=
  let* workspace_mount_path' := setup_workspace in
  let* _ := setup_logger instance metadata reset_logger in
  let* _ := on_ext (logger (LogInfo
    (py "Process-specific workspace mounted at " ++ workspace_mount_path'))) in
  let* instruction := lift (build_instruction instance agent) in
  let* state := invoke_agent instance metadata agent instruction in
  evaluate instance metadata instruction state.

(** Lines 124-242: everything after the agent has been created. *)
Definition process_instance_with_agent (instance : EvalInstance)
    (metadata : EvalMetadata) (reset_logger : bool) (agent : Agent)
    : M (Machine ext) Output :=
  let* cfg := read_config in
  let old_workspace_mount_path := workspace_mount_path cfg in
  let old_workspace_base := workspace_base cfg in
  try_finally
    (try_except
       (process_instance_body instance metadata reset_logger agent)
       (fun e =>
          let* _ := on_ext (logger (LogError (py "Process instance failed"))) in
          raise e))
    (let* _ := set_workspace_mount_path old_workspace_mount_path in
     set_workspace_base old_workspace_base).

Definition process_instance (instance : EvalInstance)
    (metadata : EvalMetadata) (reset_logger : bool)
    : M (Machine ext) Output :=
  let* agent :=
    on_ext (create_agent (agent_class metadata) (llm_config metadata)) in
  process_instance_with_agent instance metadata reset_logger agent.

(** A computation that leaves everything but the outside state as it
    found it. *)
Definition same_but_ext (s s' : Machine ext) : Prop :=
  config (world s') = config (world s) /\
  dirs (world s') = dirs (world s) /\
  getpid (world s') = getpid (world s) /\
  agent_loop_calls s' = agent_loop_calls s.

Definition ext_only {A} (m : M (Machine ext) A) : Prop :=
  forall s, same_but_ext s (m s).2.

(** A computation that does not enter the agent loop. *)
Definition keeps_calls {A} (m : M (Machine ext) A) : Prop :=
  forall s, agent_loop_calls (m s).2 = agent_loop_calls s.

End Driver.

(** ** Specification vocabulary *)

(** The loop of the lazy group of [re_match], as a function of its own. *)
Fixpoint lazy_loop (dotall : bool) (rest : list re_item) (captured t : str)
    : option (option str) :=
  match re_match dotall rest t (Some (rev captured)) with
  | Some r => Some r
  | None =>
      match t with
      | c :: t' =>
          if dot_matches dotall c then lazy_loop dotall rest (c :: captured) t'
          else None
      | [] => None
      end
  end.

(** [s] holds a final-answer marker around [cap], after [pre] and before
    [post]. *)
Definition marker_at (s pre cap post : str) : Prop :=
  s = pre ++ FINAL_ANSWER_OPEN ++ cap ++ FINAL_ANSWER_CLOSE ++ post.

Definition has_marker (s : str) : Prop :=
  exists pre cap post, marker_at s pre cap post.

(** The first occurrence of the pattern: no marker starts further left,
    and none that starts at the same place closes earlier. *)
Definition first_marker (s pre cap post : str) : Prop :=
  marker_at s pre cap post /\
  forall pre' cap' post', marker_at s pre' cap' post' ->
    (length pre <= length pre')%nat /\
    (length pre' = length pre -> (length cap <= length cap')%nat).

(** [t] is [s] without its leading and trailing whitespace. *)
Definition trimmed (s t : str) : Prop :=
  exists lead trail,
    s = lead ++ t ++ trail /\
    Forall (fun c => is_space c = true) lead /\
    Forall (fun c => is_space c = true) trail /\
    (forall c, head t = Some c -> is_space c = false) /\
    (forall c, last t = Some c -> is_space c = false).

(** The four answer letters. *)
Definition answer_letters : list str := [py "A"; py "B"; py "C"; py "D"].

(** ** Concrete inputs, for running the model *)

(** The tape as a random source. *)
Definition tape_random : RandomSource.
Proof.
  refine {| rng := list nat; randbelow := tape_randbelow |}.
  intros n [|r g] H; simpl; [lia|]. apply Nat.mod_upper_bound. lia.
Defined.

(** The fields [convert_instance_dict] reads, in the order it reads
    them, and the four answer fields among them. *)
Definition answer_fields : list str :=
  [py "Correct Answer"; py "Incorrect Answer 1"; py "Incorrect Answer 2";
   py "Incorrect Answer 3"].

Definition record_fields : list str := py "Question" :: answer_fields.

(** A record with exactly the four answer fields. *)
Definition answers_only (correct i1 i2 i3 : str) : gmap str str :=
  <[ py "Correct Answer" := correct ]>
  (<[ py "Incorrect Answer 1" := i1 ]>
  (<[ py "Incorrect Answer 2" := i2 ]>
  (<[ py "Incorrect Answer 3" := i3 ]> ∅))).

(** A record with the question and the four answer fields. *)
Definition raw_record (q correct i1 i2 i3 : str) : gmap str str :=
  <[ py "Question" := q ]> (answers_only correct i1 i2 i3).

Definition paris_record : gmap str str :=
  raw_record (py "What is the capital of France?")
    (py "Paris") (py "London") (py "Rome") (py "Berlin").

(** A record without its [Question] field. *)
Definition record_without_question : gmap str str :=
  answers_only (py "Paris") (py "London") (py "Rome") (py "Berlin").

(** A record whose first incorrect answer repeats the correct one. *)
Definition duplicate_record : gmap str str :=
  raw_record (py "Which one?") (py "X") (py "X") (py "Y") (py "Z").

(** Collaborators that follow a script: the agent gets the class that
    was asked for, the logger keeps what it is told, and the agent loop
    points the configuration somewhere else before it ends with
    [result]. *)
Definition scripted (result : outcome (option State)) : Collaborators :=
  {| ext := list LoggerCall;
     create_agent := fun cls _ => ret {| class_name := cls |};
     logger := fun call log => (Ok tt, call :: log);
     run_agent_controller := fun _ _ _ _ _ w =>
       (result,
        {| config := {| workspace_base := py "/elsewhere";
                        workspace_mount_path := py "/elsewhere" |};
           dirs := dirs w; getpid := getpid w; ext_state := ext_state w |}) |}.

Definition answer_B : State :=
  {| last_agent_message := py "My answer: <<FINAL_ANSWER||B||FINAL_ANSWER>>";
     metrics := None;
     history_pairs := [];
     last_error := None |}.

Definition paris_instance : EvalInstance :=
  {| prepared := {| question := py "What is the capital of France?";
                    choices := [py "London"; py "Paris"; py "Rome"; py "Berlin"];
                    correct_solution := py "B" |};
     instance_id := 0;
     task_id := 0 |}.

Definition metadata_for (cls : str) : EvalMetadata :=
  {| agent_class := cls;
     llm_config := py "llm";
     max_iterations := 10;
     eval_output_dir := py "out" |}.

Definition machine0 : Machine (list LoggerCall) :=
  {| world := {| config := {| workspace_base := py "/base";
                              workspace_mount_path := py "/mnt" |};
                 dirs := ∅;
                 getpid := 4242;
                 ext_state := [] |};
     agent_loop_calls := [] |}.

(** The parts of the text [build_instruction] puts together: what comes
    before the choices, the line of one choice, and what comes after
    them. *)
Definition instruction_head (q : str) : str :=
  nl ++ indent ++ py "What is the correct answer to this question:" ++ nl ++ nl
  ++ indent ++ q ++ nl ++ nl
  ++ nl
  ++ indent ++ py "Choices:" ++ nl ++ nl.

Definition choice_line (letter c : str) : str :=
  indent ++ py "(" ++ letter ++ py ") " ++ c ++ nl ++ nl.

Definition instruction_tail : str :=
  indent ++ nl ++ nl ++ nl
  ++ nl
  ++ indent ++ py "MOST IMPORTANT: Format your response as follows:" ++ nl
  ++ indent ++ py "<<FINAL_ANSWER||" ++ nl
  ++ indent ++ py "<insert correct answer here, must be one of A, B, C, D> (Please dont use any additional characters. Just the letter of the correct answer (A/B/C/D).)" ++ nl
  ++ indent ++ py "||FINAL_ANSWER>>" ++ nl
  ++ nl
  ++ indent ++ py "Additional Instructions:" ++ nl
  ++ indent ++ py "- You should ONLY interact with the environment provided to you AND NEVER ASK FOR HUMAN HELP." ++ nl
  ++ indent.

(** The state of the random source after the draws of [shuffle_loop]
    entered at [i]. *)
Fixpoint shuffle_draws {RS : RandomSource} (i : nat) (g : rng) : rng :=
  match i with
  | O => g
  | S i' => shuffle_draws i' (randbelow (i + 1) g).2
  end.

(** A directory tree in which every directory has its parent. *)
Definition parent_closed (fs : Dirs) : Prop :=
  forall p, p ∈ fs -> is_dir (p.1, removelast p.2) fs = true.


(** The [output] dict assembled from a terminal state (lines 225-234). *)
Definition output_for (instance : EvalInstance) (metadata : EvalMetadata)
    (instruction : str) (state : State) : Output :=
  {| out_task_id := task_id instance;
     out_instance_id := instance_id instance;
     out_instruction := instruction;
     out_metadata := metadata;
     out_history := history_pairs state;
     out_metrics := metrics state;
     out_error := match last_error state with
                  | Some (c :: e) => Some (c :: e)
                  | _ => None
                  end;
     out_test_result :=
       get_test_result (last_agent_message state)
         (correct_solution (prepared instance)) |}.

(** What [process_instance] makes of the result of the agent loop when
    nothing else fails. *)
Definition outcome_for (instance : EvalInstance) (metadata : EvalMetadata)
    (instruction : str) (res : outcome (option State)) : outcome Output :=
  match res with
  | Ok (Some state) => Ok (output_for instance metadata instruction state)
  | Ok None => Raise (AssertionError (py "State should not be None."))
  | Raise e => Raise e
  end.


(** Collaborators with which no agent can be created. *)
Definition no_agent : Collaborators :=
  {| ext := list LoggerCall;
     create_agent := fun cls _ => raise (OtherException (py "AgentNotRegisteredError"));
     logger := fun call log => (Ok tt, call :: log);
     run_agent_controller := fun _ _ _ _ _ w => (Ok None, w) |}.

Definition codeact_agent : Agent := {| class_name := py "CodeActAgent" |}.


(** The instruction [paris_instance] gets for [codeact_agent]. *)
Definition paris_instruction : str :=
  instruction_head (py "What is the capital of France?")
  ++ choice_line (py "A") (py "London") ++ choice_line (py "B") (py "Paris")
  ++ choice_line (py "C") (py "Rome") ++ choice_line (py "D") (py "Berlin")
  ++ instruction_tail ++ CODEACT_SUFFIX.

(** [machine0] with some directories in place: [/data], [/data/old] and
    [/mnt]. *)
Definition machine_with_dirs : Machine (list LoggerCall) :=
  {| world := {| config := config (world machine0);
                 dirs := {[ Path (py "/data"); Path (py "/data/old");
                            Path (py "/mnt") ]};
                 getpid := getpid (world machine0);
                 ext_state := [] |};
     agent_loop_calls := [] |}.

(** Collaborators whose agent loop looks at its arguments: without an
    iteration budget it returns no state, otherwise the state
    [answer_B]. *)
Definition budgeted : Collaborators :=
  {| ext := list LoggerCall;
     create_agent := fun cls _ => ret {| class_name := cls |};
     logger := fun call log => (Ok tt, call :: log);
     run_agent_controller := fun _ _ n _ _ w =>
       (if n =? 0 then Ok None else Ok (Some answer_B), w) |}.

(** ** Properties of the answer extractor and the scorer *)

Section Strings.

Lemma str_eq_spec (a b : str) : str_eq a b = true <-> a = b.
Proof.
  revert b. induction a as [|x a IH]; intros [|y b]; simpl; try easy.
  rewrite andb_true_iff, N.eqb_eq, IH. split.
  - intros [-> ->]. reflexivity.
  - intros [= -> ->]. split; reflexivity.
Qed.

Lemma str_eq_refl (a : str) : str_eq a a = true.
Proof. apply str_eq_spec. reflexivity. Qed.

Lemma strip_prefix_Some (lit s r : str) :
  strip_prefix lit s = Some r <-> s = lit ++ r.
Proof.
  revert s. induction lit as [|a lit IH]; intros s; simpl.
  - split; [intros [= ->]|intros ->]; reflexivity.
  - destruct s as [|b s]; [easy|].
    destruct (N.eqb_spec a b) as [->|Hne].
    + rewrite IH. split; [intros ->|intros [= ->]]; reflexivity.
    + split; [easy|]. intros [= -> ->]. congruence.
Qed.

Lemma strip_prefix_None (lit s : str) :
  strip_prefix lit s = None <-> forall r, s <> lit ++ r.
Proof.
  split.
  - intros H r Hr. apply strip_prefix_Some in Hr. congruence.
  - intros H. destruct (strip_prefix lit s) as [r|] eqn:E; [|reflexivity].
    apply strip_prefix_Some in E. destruct (H r E).
Qed.

Lemma re_match_lazy dotall rest s g :
  re_match dotall (LazyDotStarGroup :: rest) s g = lazy_loop dotall rest [] s.
Proof.
  simpl. generalize (@nil N) as captured.
  induction s as [|c s IH]; intros captured; simpl.
  - reflexivity.
  - destruct (re_match dotall rest (c :: s) (Some (rev captured))); [reflexivity|].
    destruct (dot_matches dotall c); [apply IH|reflexivity].
Qed.

(** The lazy group followed by a literal stops at the first place where
    the literal is found. *)
Lemma lazy_loop_Some lit t captured r :
  lazy_loop true [Lit lit] captured t = Some r ->
  exists cap rest,
    t = cap ++ lit ++ rest /\ r = Some (rev captured ++ cap) /\
    forall cap' rest', t = cap' ++ lit ++ rest' ->
      (length cap <= length cap')%nat.
Proof.
  revert captured. induction t as [|c t IH]; intros captured; simpl.
  - destruct (strip_prefix lit []) as [rest|] eqn:E; [|easy].
    intros [= <-]. apply strip_prefix_Some in E.
    exists [], rest. rewrite app_nil_r. repeat split; [exact E|].
    intros cap' rest' _. simpl. lia.
  - destruct (strip_prefix lit (c :: t)) as [rest|] eqn:E.
    + intros [= <-]. apply strip_prefix_Some in E.
      exists [], rest. rewrite app_nil_r. repeat split; [exact E|].
      intros cap' rest' _. simpl. lia.
    + intros H. apply IH in H as (cap & rest & -> & -> & Hmin).
      exists (c :: cap), rest. repeat split.
      * simpl. rewrite <- app_assoc. reflexivity.
      * intros [|c' cap'] rest' Heq.
        -- simpl in Heq. rewrite strip_prefix_None in E.
           destruct (E rest'). exact Heq.
        -- injection Heq as -> Heq. simpl.
           apply le_n_S. eapply Hmin. exact Heq.
Qed.

Lemma lazy_loop_None lit t captured :
  lazy_loop true [Lit lit] captured t = None ->
  forall cap rest, t <> cap ++ lit ++ rest.
Proof.
  revert captured. induction t as [|c t IH]; intros captured; simpl.
  - destruct (strip_prefix lit []) as [rest|] eqn:E; [easy|].
    intros _ [|c cap] rest; [|easy]. simpl.
    rewrite strip_prefix_None in E. apply E.
  - destruct (strip_prefix lit (c :: t)) as [rest|] eqn:E; [easy|].
    intros H [|c' cap] rest Heq.
    + rewrite strip_prefix_None in E. destruct (E rest). exact Heq.
    + injection Heq as -> Heq. exact (IH _ H _ _ Heq).
Qed.

Lemma re_match_Lit dotall l rest s g :
  re_match dotall (Lit l :: rest) s g =
  match strip_prefix l s with
  | Some s' => re_match dotall rest s' g
  | None => None
  end.
Proof. reflexivity. Qed.

Lemma re_match_marker o c s :
  re_match true [Lit o; LazyDotStarGroup; Lit c] s None =
  match strip_prefix o s with
  | Some s' => lazy_loop true [Lit c] [] s'
  | None => None
  end.
Proof.
  rewrite re_match_Lit. destruct (strip_prefix o s); [|reflexivity].
  apply re_match_lazy.
Qed.

Lemma re_match_marker_None o c s :
  re_match true [Lit o; LazyDotStarGroup; Lit c] s None = None ->
  forall cap post, s <> o ++ cap ++ c ++ post.
Proof.
  rewrite re_match_marker. intros H cap post Heq.
  destruct (strip_prefix o s) as [s'|] eqn:E.
  - apply strip_prefix_Some in E. rewrite E in Heq.
    apply app_inv_head in Heq. exact (lazy_loop_None _ _ _ H _ _ Heq).
  - rewrite strip_prefix_None in E. exact (E _ Heq).
Qed.

Lemma re_search_unfold dotall items s :
  re_search dotall items s =
  match re_match dotall items s None with
  | Some r => Some r
  | None =>
      match s with
      | _ :: s' => re_search dotall items s'
      | [] => None
      end
  end.
Proof. destruct s; reflexivity. Qed.

Lemma re_search_Some o c s r :
  re_search true [Lit o; LazyDotStarGroup; Lit c] s = Some r ->
  exists pre cap post,
    s = pre ++ o ++ cap ++ c ++ post /\ r = Some cap /\
    forall pre' cap' post', s = pre' ++ o ++ cap' ++ c ++ post' ->
      (length pre <= length pre')%nat /\
      (length pre' = length pre -> (length cap <= length cap')%nat).
Proof.
  assert (Hhere : forall s r,
    re_match true [Lit o; LazyDotStarGroup; Lit c] s None = Some r ->
    exists cap post,
      s = o ++ cap ++ c ++ post /\ r = Some cap /\
      forall cap' post', s = o ++ cap' ++ c ++ post' ->
        (length cap <= length cap')%nat).
  { clear s r. intros s r. rewrite re_match_marker.
    destruct (strip_prefix o s) as [s'|] eqn:E; [|easy].
    apply strip_prefix_Some in E. subst s. intros H.
    apply lazy_loop_Some in H as (cap & post & -> & -> & Hmin).
    exists cap, post. repeat split.
    intros cap' post' Heq. apply app_inv_head in Heq. eauto. }
  induction s as [|x s IH]; rewrite re_search_unfold.
  - destruct (re_match true _ [] None) as [r'|] eqn:E; [|easy].
    intros [= <-]. apply Hhere in E as (cap & post & Heq & -> & Hmin).
    exists [], cap, post. repeat split; simpl; [exact Heq|lia|].
    intros Hlen. destruct pre'; [|easy]. eauto.
  - destruct (re_match true _ (x :: s) None) as [r'|] eqn:E.
    + intros [= <-]. apply Hhere in E as (cap & post & Heq & -> & Hmin).
      exists [], cap, post. repeat split; simpl; [exact Heq|lia|].
      intros Hlen. destruct pre'; [|easy]. eauto.
    + intros H. apply IH in H as (pre & cap & post & -> & -> & Hmin).
      exists (x :: pre), cap, post. repeat split.
      * destruct pre' as [|x' pre'].
        -- destruct (re_match_marker_None _ _ _ E _ _ H).
        -- injection H as -> H. simpl. apply le_n_S. eapply Hmin. exact H.
      * destruct pre' as [|x' pre'].
        -- destruct (re_match_marker_None _ _ _ E _ _ H).
        -- injection H as -> H. simpl. intros [= Hlen].
           eapply Hmin; eauto.
Qed.

Lemma re_search_None o c s :
  re_search true [Lit o; LazyDotStarGroup; Lit c] s = None ->
  forall pre cap post, s <> pre ++ o ++ cap ++ c ++ post.
Proof.
  induction s as [|x s IH]; rewrite re_search_unfold.
  - destruct (re_match true _ [] None) eqn:E; [easy|]. intros _.
    intros [|? ?] cap post; [|easy]. exact (re_match_marker_None _ _ _ E _ _).
  - destruct (re_match true _ (x :: s) None) eqn:E; [easy|]. intros H.
    intros [|x' pre] cap post Heq.
    + exact (re_match_marker_None _ _ _ E _ _ Heq).
    + injection Heq as -> Heq. exact (IH H _ _ _ Heq).
Qed.

Lemma re_search_group o c s :
  re_search true [Lit o; LazyDotStarGroup; Lit c] s <> Some None.
Proof.
  intros H. apply re_search_Some in H as (? & ? & ? & _ & [=] & _).
Qed.

Lemma last_rev {A} (l : list A) : last (rev l) = head l.
Proof. destruct l as [|a l]; [reflexivity|]. simpl. apply last_snoc. Qed.

Lemma lstrip_spec (s : str) :
  exists lead,
    s = lead ++ lstrip s /\
    Forall (fun c => is_space c = true) lead /\
    forall c, head (lstrip s) = Some c -> is_space c = false.
Proof.
  induction s as [|c s (lead & Heq & Hlead & Hhead)]; simpl.
  - exists []. repeat split; [constructor|easy].
  - destruct (is_space c) eqn:E.
    + exists (c :: lead). repeat split; [simpl; congruence|by constructor|exact Hhead].
    + exists []. repeat split; [constructor|]. simpl. intros ? [= <-]. exact E.
Qed.

Lemma rstrip_spec (s : str) :
  exists trail,
    s = rstrip s ++ trail /\
    Forall (fun c => is_space c = true) trail /\
    forall c, last (rstrip s) = Some c -> is_space c = false.
Proof.
  destruct (lstrip_spec (rev s)) as (lead & Heq & Hlead & Hhead).
  exists (rev lead). unfold rstrip. repeat split.
  - rewrite <- rev_app_distr, <- Heq, rev_involutive. reflexivity.
  - rewrite Forall_forall in *. intros c Hc. apply Hlead.
    apply list_elem_of_In, in_rev, list_elem_of_In. exact Hc.
  - intros c. rewrite last_rev. apply Hhead.
Qed.

Lemma py_strip_trimmed (s : str) : trimmed s (py_strip s).
Proof.
  destruct (lstrip_spec s) as (lead & Hs & Hlead & Hhead).
  destruct (rstrip_spec (lstrip s)) as (trail & Ht & Htrail & Hlast).
  exists lead, trail. unfold py_strip. repeat split; try assumption.
  - rewrite <- Ht. exact Hs.
  - intros c Hc. apply Hhead. rewrite Ht.
    destruct (rstrip (lstrip s)); [easy|exact Hc].
Qed.

Lemma search_no_marker (s : str) :
  re_search true pattern s = None <-> ~ has_marker s.
Proof.
  split.
  - intros H (pre & cap & post & Heq). exact (re_search_None _ _ _ H _ _ _ Heq).
  - intros H. destruct (re_search true pattern s) as [r|] eqn:E; [|reflexivity].
    apply re_search_Some in E as (pre & cap & post & Heq & _).
    destruct H. exists pre, cap, post. exact Heq.
Qed.

Lemma parse_final_answer_no_marker (s : str) :
  ~ has_marker s -> parse_final_answer s = NO_FINAL_ANSWER.
Proof.
  intros H. apply search_no_marker in H. unfold parse_final_answer.
  rewrite H. reflexivity.
Qed.

(** C1: on every input, [parse_final_answer] returns the capture of the
    first occurrence of the marker pattern, whatever characters the
    capture holds (newlines included), without its leading and trailing
    whitespace; when the input holds no marker it returns the sentinel
    text. *)
Theorem parse_final_answer_spec (s : str) :
  (exists pre cap post,
     first_marker s pre cap post /\ trimmed cap (parse_final_answer s))
  \/ (~ has_marker s /\ parse_final_answer s = NO_FINAL_ANSWER).
Proof.
  destruct (re_search true pattern s) as [r|] eqn:E.
  - left. pose proof E as E'.
    apply re_search_Some in E' as (pre & cap & post & Heq & -> & Hmin).
    exists pre, cap, post. split.
    + split; [exact Heq|]. intros pre' cap' post' H'. exact (Hmin _ _ _ H').
    + unfold parse_final_answer. rewrite E. apply py_strip_trimmed.
  - right. apply search_no_marker in E. split; [exact E|].
    apply parse_final_answer_no_marker. exact E.
Qed.

(** C4: when the message holds no final-answer marker, the extractor
    yields the sentinel, the sentinel differs from the ground-truth
    letter, and [get_test_result] returns [false]. *)
Theorem get_test_result_no_marker (s gt : str) :
  ~ has_marker s ->
  gt ∈ answer_letters ->
  parse_final_answer s = NO_FINAL_ANSWER /\
  NO_FINAL_ANSWER <> gt /\
  get_test_result s gt = false.
Proof.
  intros Hs Hgt. pose proof (parse_final_answer_no_marker s Hs) as Hp.
  assert (Hne : NO_FINAL_ANSWER <> gt).
  { unfold answer_letters in Hgt. set_unfold in Hgt.
    destruct Hgt as [->|[->|[->|[->|[]]]]]; discriminate. }
  repeat split; [exact Hp|exact Hne|].
  unfold get_test_result, compare_answers. rewrite Hp.
  destruct (str_eq NO_FINAL_ANSWER gt) eqn:E; [|reflexivity].
  apply str_eq_spec in E. contradiction.
Qed.

Lemma get_test_result_no_marker_empty :
  parse_final_answer [] = NO_FINAL_ANSWER /\
  NO_FINAL_ANSWER <> py "A" /\
  get_test_result [] (py "A") = false.
Proof.
  apply (get_test_result_no_marker [] (py "A")).
  - apply search_no_marker. vm_compute. reflexivity.
  - vm_compute. set_solver.
Defined.

(** C5: [compare_answers] holds exactly when the two strings are the
    same sequence of code points; the letter case is not folded. *)
Theorem compare_answers_exact :
  (forall predicted_answer ground_truth : str,
     compare_answers predicted_answer ground_truth = true
     <-> predicted_answer = ground_truth) /\
  compare_answers (py "A") (py "A") = true /\
  compare_answers (py "a") (py "A") = false.
Proof.
  split; [|split; reflexivity].
  intros p g. apply str_eq_spec.
Qed.

End Strings.

(** ** Properties of the instance preparer *)

Section PrepareProperties.
Context {RS : RandomSource}.

Lemma swap_items_Permutation {A} (x : list A) (i j : nat) :
  (i < length x)%nat -> (j < length x)%nat ->
  exists x', swap_items x i j = Ok x' /\ x' ≡ₚ x.
Proof.
  intros Hi Hj.
  destruct (lookup_lt_is_Some_2 x i Hi) as [xi Hxi].
  destruct (lookup_lt_is_Some_2 x j Hj) as [xj Hxj].
  unfold swap_items. rewrite Hxi, Hxj. eexists. split; [reflexivity|].
  apply Permutation_inj. split; [by rewrite !length_insert|].
  exists (fun k => if decide (k = j) then i else if decide (k = i) then j else k).
  split.
  - intros a b. repeat case_decide; lia.
  - intros k. repeat case_decide; subst.
    + rewrite list_lookup_insert_eq; [by rewrite Hxi|by rewrite length_insert].
    + rewrite list_lookup_insert_ne by done.
      rewrite list_lookup_insert_eq; [by rewrite Hxj|done].
    + by rewrite !list_lookup_insert_ne.
Qed.

Lemma shuffle_loop_Permutation {A} (i : nat) (x : list A) (g : rng) :
  (i < length x)%nat ->
  exists x' g', shuffle_loop i x g = (Ok x', g') /\ x' ≡ₚ x.
Proof.
  revert x g. induction i as [|i IH]; intros x g Hi; simpl.
  - exists x, g. split; reflexivity.
  - unfold bind at 1.
    pose proof (randbelow_lt (S (i + 1)) g ltac:(lia)) as Hj.
    destruct (randbelow (S (i + 1)) g) as [j g1]. simpl in Hj.
    destruct (swap_items_Permutation x (S i) j Hi ltac:(lia)) as (x1 & Hswap & Hperm).
    unfold bind, lift. rewrite Hswap.
    destruct (IH x1 g1) as (x' & g' & Hloop & Hperm').
    { apply Permutation_length in Hperm. lia. }
    exists x', g'. split; [exact Hloop|]. by rewrite Hperm'.
Qed.

(** [random.shuffle] returns, and what it leaves is a permutation. *)
Lemma shuffle_Permutation {A} (x : list A) (g : rng) :
  exists x' g', shuffle x g = (Ok x', g') /\ x' ≡ₚ x.
Proof.
  unfold shuffle. destruct x as [|a x].
  - exists [], g. split; reflexivity.
  - apply shuffle_loop_Permutation. simpl. lia.
Qed.

Lemma index_from_first (x : str) (l : list str) (k : nat) :
  x ∈ l ->
  exists i, index_from x l k = Some (k + i)%nat /\ l !! i = Some x /\
    forall j, (j < i)%nat -> l !! j <> Some x.
Proof.
  revert k. induction l as [|y l IH]; intros k Hx; [by apply elem_of_nil in Hx|].
  simpl. destruct (str_eq y x) eqn:E.
  - apply str_eq_spec in E as ->. exists 0%nat.
    split; [by rewrite Nat.add_0_r|]. split; [reflexivity|lia].
  - assert (Hne : y <> x) by (intros ->; by rewrite str_eq_refl in E).
    apply elem_of_cons in Hx as [->|Hx]; [done|].
    destruct (IH (S k) Hx) as (i & Hi & Hl & Hmin). exists (S i).
    split; [by rewrite Hi, Nat.add_succ_r|]. split; [exact Hl|].
    intros [|j] Hj; simpl; [congruence|]. apply Hmin. lia.
Qed.

Lemma list_index_first (l : list str) (x : str) :
  x ∈ l ->
  exists i, list_index l x = Ok i /\ l !! i = Some x /\
    forall j, (j < i)%nat -> l !! j <> Some x.
Proof.
  intros Hx. destruct (index_from_first x l 0 Hx) as (i & Hi & Hl & Hmin).
  exists i. unfold list_index. rewrite Hi. auto.
Qed.

(** What [convert_instance_dict] does on a record that has its five
    fields. *)
Lemma convert_instance_dict_Ok (instance : gmap str str) (g : rng)
    (q c i1 i2 i3 : str) :
  instance !! py "Question" = Some q ->
  instance !! py "Correct Answer" = Some c ->
  instance !! py "Incorrect Answer 1" = Some i1 ->
  instance !! py "Incorrect Answer 2" = Some i2 ->
  instance !! py "Incorrect Answer 3" = Some i3 ->
  exists out g' index,
    convert_instance_dict instance g = (Ok out, g') /\
    question out = q /\
    choices out ≡ₚ [c; i1; i2; i3] /\
    (index < 4)%nat /\
    list_index (choices out) c = Ok index /\
    choices out !! index = Some c /\
    (forall j, (j < index)%nat -> choices out !! j <> Some c) /\
    correct_solution out = [65 + N.of_nat index].
Proof.
  intros Hq Hc H1 H2 H3.
  destruct (shuffle_Permutation [c; i1; i2; i3] g) as (x & g' & Hsh & Hperm).
  assert (Hin : c ∈ x) by (rewrite Hperm; set_solver).
  destruct (list_index_first x c Hin) as (index & Hidx & Hlook & Hmin).
  assert (Hlt : (index < 4)%nat).
  { apply lookup_lt_Some in Hlook. apply Permutation_length in Hperm.
    simpl in Hperm. lia. }
  eexists _, g', index. split.
  - unfold convert_instance_dict, bind, lift, getitem, ret.
    rewrite Hq, Hc, H1, H2, H3, Hsh, Hidx.
    unfold py_chr. destruct (N.ltb_spec (65 + N.of_nat index) 1114112); [|lia].
    reflexivity.
  - simpl. auto 10.
Qed.

(** C2: on a record with its question and four answers, whatever the
    random source draws, the prepared choices are a permutation of the
    four answer strings, the correct letter is [chr(65 + index)] for the
    index of the correct answer, it is one of A, B, C and D, and the
    choice at position [ord(letter) - 65] is the correct answer. *)
Theorem convert_instance_dict_choices (instance : gmap str str) (g : rng)
    (q c i1 i2 i3 : str) :
  instance !! py "Question" = Some q ->
  instance !! py "Correct Answer" = Some c ->
  instance !! py "Incorrect Answer 1" = Some i1 ->
  instance !! py "Incorrect Answer 2" = Some i2 ->
  instance !! py "Incorrect Answer 3" = Some i3 ->
  exists out g',
    convert_instance_dict instance g = (Ok out, g') /\
    choices out ≡ₚ [c; i1; i2; i3] /\
    length (choices out) = 4%nat /\
    (exists index,
       list_index (choices out) c = Ok index /\
       py_chr (65 + N.of_nat index) = Ok (correct_solution out)) /\
    correct_solution out ∈ answer_letters /\
    (exists o,
       py_ord (correct_solution out) = Ok o /\
       choices out !! N.to_nat (o - 65) = Some c).
Proof.
  intros Hq Hc H1 H2 H3.
  destruct (convert_instance_dict_Ok instance g q c i1 i2 i3 Hq Hc H1 H2 H3)
    as (out & g' & index & Hrun & _ & Hperm & Hlt & Hidx & Hlook & _ & Hsol).
  exists out, g'. split; [exact Hrun|]. split; [exact Hperm|].
  split; [by rewrite Hperm|]. split; [|split].
  - exists index. split; [exact Hidx|]. rewrite Hsol. unfold py_chr.
    destruct (N.ltb_spec (65 + N.of_nat index) 1114112); [reflexivity|lia].
  - rewrite Hsol. unfold answer_letters.
    destruct index as [|[|[|[|?]]]]; [set_solver..|lia].
  - exists (65 + N.of_nat index). rewrite Hsol. split; [reflexivity|].
    replace (N.to_nat (65 + N.of_nat index - 65)) with index by lia.
    exact Hlook.
Qed.

(** C10: when the correct answer also occurs among the incorrect ones,
    preparation still succeeds; the letter stands for the first position
    of the shuffled choices that holds the correct answer's text, and
    the choice at that position is that text. *)
Theorem convert_instance_dict_duplicate (instance : gmap str str) (g : rng)
    (q c i1 i2 i3 : str) :
  instance !! py "Question" = Some q ->
  instance !! py "Correct Answer" = Some c ->
  instance !! py "Incorrect Answer 1" = Some i1 ->
  instance !! py "Incorrect Answer 2" = Some i2 ->
  instance !! py "Incorrect Answer 3" = Some i3 ->
  c ∈ [i1; i2; i3] ->
  exists out g' index,
    convert_instance_dict instance g = (Ok out, g') /\
    py_chr (65 + N.of_nat index) = Ok (correct_solution out) /\
    choices out !! index = Some c /\
    (forall j, (j < index)%nat -> choices out !! j <> Some c).
Proof.
  intros Hq Hc H1 H2 H3 _.
  destruct (convert_instance_dict_Ok instance g q c i1 i2 i3 Hq Hc H1 H2 H3)
    as (out & g' & index & Hrun & _ & _ & Hlt & _ & Hlook & Hmin & Hsol).
  exists out, g', index. split; [exact Hrun|]. split; [|split; assumption].
  rewrite Hsol. unfold py_chr.
  destruct (N.ltb_spec (65 + N.of_nat index) 1114112); [reflexivity|lia].
Qed.

(** C7, as the code has it: a record that lacks [Question] or one of the
    four answer fields makes [convert_instance_dict] raise [KeyError] for
    the first field it misses in the order it reads them ([Question],
    [Correct Answer], [Incorrect Answer 1], [2], [3]): every field
    before the one named is present; the random source is untouched.  A
    record with all five fields is prepared without an exception. *)
Theorem convert_instance_dict_fields (instance : gmap str str) (g : rng) :
  ((forall key, key ∈ record_fields -> is_Some (instance !! key)) /\
   exists out g', convert_instance_dict instance g = (Ok out, g'))
  \/
  (exists before key after,
     record_fields = before ++ key :: after /\
     (forall k, k ∈ before -> is_Some (instance !! k)) /\
     instance !! key = None /\
     convert_instance_dict instance g = (Raise (KeyError key), g)).
Proof.
  assert (Hpresent : forall fields : list str,
            Forall (fun k => is_Some (instance !! k)) fields ->
            forall k, k ∈ fields -> is_Some (instance !! k)).
  { intros fields Hf k Hk. rewrite Forall_forall in Hf. by apply Hf. }
  destruct (instance !! py "Question") as [q|] eqn:Hq; cycle 1.
  { right. exists [], (py "Question"), answer_fields.
    split; [reflexivity|]. split; [apply Hpresent; constructor|].
    split; [exact Hq|].
    unfold convert_instance_dict, bind, lift, getitem. by rewrite Hq. }
  destruct (instance !! py "Correct Answer") as [c|] eqn:Hc; cycle 1.
  { right. exists [py "Question"], (py "Correct Answer"),
      [py "Incorrect Answer 1"; py "Incorrect Answer 2"; py "Incorrect Answer 3"].
    split; [reflexivity|]. split; [apply Hpresent; repeat constructor; eauto|].
    split; [exact Hc|].
    unfold convert_instance_dict, bind, lift, getitem. by rewrite Hq, Hc. }
  destruct (instance !! py "Incorrect Answer 1") as [i1|] eqn:H1; cycle 1.
  { right. exists [py "Question"; py "Correct Answer"],
      (py "Incorrect Answer 1"),
      [py "Incorrect Answer 2"; py "Incorrect Answer 3"].
    split; [reflexivity|]. split; [apply Hpresent; repeat constructor; eauto|].
    split; [exact H1|].
    unfold convert_instance_dict, bind, lift, getitem. by rewrite Hq, Hc, H1. }
  destruct (instance !! py "Incorrect Answer 2") as [i2|] eqn:H2; cycle 1.
  { right. exists [py "Question"; py "Correct Answer"; py "Incorrect Answer 1"],
      (py "Incorrect Answer 2"), [py "Incorrect Answer 3"].
    split; [reflexivity|]. split; [apply Hpresent; repeat constructor; eauto|].
    split; [exact H2|].
    unfold convert_instance_dict, bind, lift, getitem. by rewrite Hq, Hc, H1, H2. }
  destruct (instance !! py "Incorrect Answer 3") as [i3|] eqn:H3; cycle 1.
  { right. exists [py "Question"; py "Correct Answer"; py "Incorrect Answer 1";
                   py "Incorrect Answer 2"],
      (py "Incorrect Answer 3"), [].
    split; [reflexivity|]. split; [apply Hpresent; repeat constructor; eauto|].
    split; [exact H3|].
    unfold convert_instance_dict, bind, lift, getitem. by rewrite Hq, Hc, H1, H2, H3. }
  left. split.
  - intros key Hkey. unfold record_fields, answer_fields in Hkey.
    repeat (apply elem_of_cons in Hkey as [->|Hkey]; [eauto|]).
    by apply elem_of_nil in Hkey.
  - destruct (convert_instance_dict_Ok instance g q c i1 i2 i3 Hq Hc H1 H2 H3)
      as (out & g' & _ & Hrun & _). eauto.
Qed.

End PrepareProperties.

Lemma convert_instance_dict_choices_paris :
  exists out g',
    convert_instance_dict (RS := tape_random) paris_record [3; 2; 0]%nat
      = (Ok out, g') /\
    choices out ≡ₚ [py "Paris"; py "London"; py "Rome"; py "Berlin"] /\
    length (choices out) = 4%nat /\
    (exists index,
       list_index (choices out) (py "Paris") = Ok index /\
       py_chr (65 + N.of_nat index) = Ok (correct_solution out)) /\
    correct_solution out ∈ answer_letters /\
    (exists o,
       py_ord (correct_solution out) = Ok o /\
       choices out !! N.to_nat (o - 65) = Some (py "Paris")).
Proof.
  apply (convert_instance_dict_choices (RS := tape_random) paris_record
           [3; 2; 0]%nat (py "What is the capital of France?"));
    vm_compute; reflexivity.
Defined.

Lemma convert_instance_dict_duplicate_X :
  exists out g' index,
    convert_instance_dict (RS := tape_random) duplicate_record [0; 0; 0]%nat
      = (Ok out, g') /\
    py_chr (65 + N.of_nat index) = Ok (correct_solution out) /\
    choices out !! index = Some (py "X") /\
    (forall j, (j < index)%nat -> choices out !! j <> Some (py "X")).
Proof.
  apply (convert_instance_dict_duplicate (RS := tape_random) duplicate_record
           [0; 0; 0]%nat (py "Which one?") (py "X") (py "X") (py "Y") (py "Z"));
    try (vm_compute; reflexivity).
  apply elem_of_cons. left. reflexivity.
Defined.

(** The claim that a record with its four answer fields is always
    prepared fails on a record without [Question]: every answer field is
    there, and [convert_instance_dict] raises [KeyError('Question')]. *)
Lemma convert_instance_dict_needs_question :
  (forall key, key ∈ answer_fields ->
     is_Some (record_without_question !! key)) /\
  convert_instance_dict (RS := tape_random) record_without_question [3; 2; 0]%nat
    = (Raise (KeyError (py "Question")), [3; 2; 0]%nat).
Proof.
  split.
  - intros key Hkey. unfold answer_fields in Hkey.
    repeat (apply elem_of_cons in Hkey as [->|Hkey];
            [vm_compute; eauto|]).
    by apply elem_of_nil in Hkey.
  - vm_compute. reflexivity.
Qed.

(** ** Properties of paths and directories *)

Section Paths.

Lemma uint_to_str_digits (d : Decimal.uint) :
  Forall (fun c => 48 <= c <= 57) (uint_to_str d).
Proof. induction d; simpl; constructor; (lia || assumption). Qed.

Lemma uint_to_str_nonnil (d : Decimal.uint) :
  d <> Nil -> uint_to_str d <> [].
Proof. destruct d; simpl; congruence. Qed.

Lemma str_of_int_digits (n : N) :
  str_of_int n <> [] /\ Forall (fun c => 48 <= c <= 57) (str_of_int n).
Proof.
  split; [|apply uint_to_str_digits].
  apply uint_to_str_nonnil. destruct n as [|p]; simpl; [discriminate|].
  apply Unsigned.to_uint_nonnil.
Qed.

Lemma split_sep_nonnil (s : str) : split_sep s <> [].
Proof.
  destruct s as [|c s]; simpl; [discriminate|].
  destruct (c =? sep); [discriminate|]. destruct (split_sep s); discriminate.
Qed.

Lemma split_sep_app (a b : str) :
  split_sep (a ++ sep :: b) = split_sep a ++ split_sep b.
Proof.
  induction a as [|c a IH]; simpl.
  - reflexivity.
  - destruct (N.eqb_spec c sep); rewrite IH; [reflexivity|].
    pose proof (split_sep_nonnil a).
    destruct (split_sep a); [contradiction|reflexivity].
Qed.

Lemma split_sep_one (s : str) :
  Forall (fun c => c <> sep) s -> split_sep s = [s].
Proof.
  induction 1 as [|c s Hc _ IH]; simpl; [reflexivity|].
  destruct (N.eqb_spec c sep); [contradiction|]. rewrite IH. reflexivity.
Qed.

Lemma leading_seps_app (a b : str) :
  leading_seps b = 0%nat -> leading_seps (a ++ b) = leading_seps a.
Proof.
  intros Hb. induction a as [|c a IH]; simpl; [exact Hb|].
  destruct (c =? sep); congruence.
Qed.

Lemma starts_with_sep_leading (s : str) :
  starts_with_sep s = false -> leading_seps s = 0%nat.
Proof. destruct s as [|c s]; simpl; [reflexivity|]. by intros ->. Qed.

(** A string is empty, ends with the separator, or ends with something
    else. *)
Lemma str_end_cases (s : str) :
  s = [] \/
  (exists s', s = s' ++ [sep] /\ ends_with_sep s = true) \/
  (exists s' c, s = s' ++ [c] /\ c <> sep /\ ends_with_sep s = false).
Proof.
  destruct s as [|x s] using rev_ind; [by left|right].
  unfold ends_with_sep. rewrite rev_unit. simpl.
  destruct (N.eqb_spec x sep) as [->|Hne]; [left|right]; eauto.
Qed.

Lemma leading_seps_snoc (s : str) (c : N) (t : str) :
  c <> sep -> leading_seps ((s ++ [c]) ++ t) = leading_seps (s ++ [c]).
Proof.
  intros Hc. induction s as [|x s IH]; simpl.
  - destruct (N.eqb_spec c sep); [contradiction|reflexivity].
  - destruct (x =? sep); congruence.
Qed.

Lemma is_empty_snoc (s : str) (c : N) : is_empty (s ++ [c]) = false.
Proof. destruct s; reflexivity. Qed.

Lemma path_root_app (a b : str) :
  leading_seps (a ++ b) = leading_seps a -> path_root (a ++ b) = path_root a.
Proof. unfold path_root. by intros ->. Qed.

(** Joining one more part to a path string names the child of the path
    it stood for. *)
Lemma Path_join_step (path b : str) :
  Forall (fun c => c <> sep) b -> is_part b = true ->
  Path (join_step path b) = path_child (Path path) b.
Proof.
  intros Hb Hpart.
  assert (Hstart : starts_with_sep b = false).
  { destruct Hb as [|c b Hc _]; simpl; [reflexivity|]. by apply N.eqb_neq. }
  pose proof (starts_with_sep_leading b Hstart) as Hlead.
  pose proof (split_sep_one b Hb) as Hsplit.
  unfold join_step, Path, path_child. rewrite Hstart. simpl fst; simpl snd.
  destruct (str_end_cases path) as [->|[(s' & -> & Hend)|(s' & c & -> & Hc & Hend)]].
  - simpl. rewrite Hsplit. simpl. rewrite Hpart.
    unfold path_root. rewrite Hlead. reflexivity.
  - rewrite Hend, is_empty_snoc. simpl orb. cbv iota.
    f_equal; [apply path_root_app, leading_seps_app, Hlead|].
    rewrite <- app_assoc. simpl app.
    rewrite !split_sep_app, !List.filter_app, Hsplit. simpl.
    rewrite Hpart, app_nil_r. reflexivity.
  - rewrite Hend, is_empty_snoc. simpl orb. cbv iota.
    f_equal; [apply path_root_app, leading_seps_snoc, Hc|].
    simpl app. rewrite split_sep_app, List.filter_app, Hsplit. simpl.
    rewrite Hpart. reflexivity.
Qed.

Lemma str_of_int_part (n : N) :
  Forall (fun c => c <> sep) (str_of_int n) /\ is_part (str_of_int n) = true.
Proof.
  destruct (str_of_int_digits n) as [Hne Hdig]. split.
  - eapply Forall_impl; [exact Hdig|]. unfold sep. simpl. lia.
  - destruct Hdig as [|c s Hc _]; [contradiction|].
    unfold is_part. change (py ".") with [46]. cbn [str_eq negb andb].
    destruct (N.eqb_spec c 46); [lia|reflexivity].
Qed.

Lemma eval_workspace_part :
  Forall (fun c => c <> sep) (py "_eval_workspace") /\
  is_part (py "_eval_workspace") = true.
Proof. split; [|reflexivity]. repeat constructor; discriminate. Qed.

(** The workspace path names the directory [<pid>] inside the directory
    [_eval_workspace] of the base path. *)
Lemma Path_eval_workspace_path (base : str) (pid : N) :
  Path (eval_workspace_path base pid) =
  path_child (path_child (Path base) (py "_eval_workspace")) (str_of_int pid).
Proof.
  unfold eval_workspace_path, os_path_join. simpl fold_left.
  destruct (str_of_int_part pid) as [H1 H2].
  destruct eval_workspace_part as [H3 H4].
  rewrite Path_join_step by assumption.
  rewrite Path_join_step by assumption. reflexivity.
Qed.

(** Written out as text, for a base that is not empty and has no
    trailing slash. *)
Lemma eval_workspace_path_text (base : str) (pid : N) :
  base <> [] -> ends_with_sep base = false ->
  eval_workspace_path base pid =
  base ++ py "/_eval_workspace/" ++ str_of_int pid.
Proof.
  intros Hne Hend.
  destruct (str_of_int_part pid) as [H1 _].
  assert (Hstart : starts_with_sep (str_of_int pid) = false).
  { destruct H1 as [|c b Hc _]; simpl; [reflexivity|]. by apply N.eqb_neq. }
  unfold eval_workspace_path, os_path_join. simpl fold_left.
  unfold join_step at 2. change (starts_with_sep (py "_eval_workspace")) with false.
  cbv iota. rewrite Hend. destruct base as [|c base]; [contradiction|].
  simpl is_empty. simpl orb. cbv iota.
  unfold join_step. rewrite Hstart.
  replace (is_empty _) with false by reflexivity.
  replace (ends_with_sep _) with false.
  - simpl orb. cbv iota. rewrite <- !app_assoc. reflexivity.
  - unfold ends_with_sep. rewrite !rev_app_distr. reflexivity.
Qed.

Lemma is_dir_new (p : PurePath) (fs : Dirs) : is_dir p ({[ p ]} ∪ fs) = true.
Proof.
  unfold is_dir. destruct (p.2); [reflexivity|].
  apply bool_decide_eq_true. set_solver.
Qed.

Lemma Path_mkdir_rev_cons root c rparent parents exist_ok fs :
  Path_mkdir_rev root (c :: rparent) parents exist_ok fs =
  match os_mkdir (root, rev (c :: rparent)) fs with
  | (Raise FileNotFoundError, fs') =>
      if parents then
        match Path_mkdir_rev root rparent true true fs' with
        | (Ok _, fs'') =>
            Path_mkdir_here (root, rev (c :: rparent)) exist_ok fs''
        | r => r
        end
      else (Raise FileNotFoundError, fs')
  | (Raise e, fs') =>
      if exist_ok && is_dir (root, rev (c :: rparent)) fs' then (Ok tt, fs')
      else (Raise e, fs')
  | r => r
  end.
Proof. reflexivity. Qed.

Lemma os_mkdir_cases (p : PurePath) (fs : Dirs) :
  (is_dir p fs = true /\ os_mkdir p fs = (Raise FileExistsError, fs)) \/
  (is_dir p fs = false /\ is_dir (p.1, removelast p.2) fs = true /\
   os_mkdir p fs = (Ok tt, {[ p ]} ∪ fs)) \/
  (is_dir p fs = false /\ is_dir (p.1, removelast p.2) fs = false /\
   os_mkdir p fs = (Raise FileNotFoundError, fs)).
Proof.
  unfold os_mkdir. destruct (is_dir p fs); [by left|right].
  destruct (is_dir (p.1, removelast p.2) fs); [by left|by right].
Qed.

(** [mkdir(parents=True, exist_ok=True)] always returns: afterwards the
    directory exists, nothing that existed is lost, and a directory that
    was already there leaves the tree as it was. *)
Lemma Path_mkdir_rev_parents (root : nat) (rparts : list str) (fs : Dirs) :
  exists fs',
    Path_mkdir_rev root rparts true true fs = (Ok tt, fs') /\
    is_dir (root, rev rparts) fs' = true /\
    fs ⊆ fs' /\
    (is_dir (root, rev rparts) fs = true -> fs' = fs).
Proof.
  revert fs. induction rparts as [|c rparent IH]; intros fs.
  - exists fs. simpl. repeat split; try reflexivity.
  - rewrite Path_mkdir_rev_cons.
    assert (Hparent : removelast (rev (c :: rparent)) = rev rparent)
      by apply removelast_last.
    remember (rev (c :: rparent)) as parts eqn:Hparts. clear Hparts.
    destruct (os_mkdir_cases (root, parts) fs)
      as [(Hd & ->)|[(Hd & Hp & ->)|(Hd & Hp & ->)]].
    + rewrite Hd. exists fs. repeat split; auto.
    + eexists. split; [reflexivity|]. split; [apply is_dir_new|].
      split; [set_solver|congruence].
    + destruct (IH fs) as (fs1 & -> & Hd1 & Hsub & _).
      unfold Path_mkdir_here.
      destruct (os_mkdir_cases (root, parts) fs1)
        as [(Hd2 & ->)|[(Hd2 & Hp2 & ->)|(Hd2 & Hp2 & ->)]].
      * rewrite Hd2. exists fs1. repeat split; auto. congruence.
      * eexists. split; [reflexivity|]. split; [apply is_dir_new|].
        split; [set_solver|congruence].
      * simpl in Hp2. rewrite Hparent in Hp2. congruence.
Qed.

Lemma Path_mkdir_parents (p : PurePath) (fs : Dirs) :
  exists fs',
    Path_mkdir p true true fs = (Ok tt, fs') /\
    is_dir p fs' = true /\
    fs ⊆ fs' /\
    (is_dir p fs = true -> fs' = fs).
Proof.
  destruct p as [root parts]. unfold Path_mkdir. simpl fst; simpl snd.
  destruct (Path_mkdir_rev_parents root (rev parts) fs) as (fs' & H).
  rewrite rev_involutive in H. eauto.
Qed.

End Paths.

(** ** Properties of the driver *)

Section DriverProperties.
Context {C : Collaborators}.

Lemma same_but_ext_refl (s : Machine ext) : same_but_ext s s.
Proof. by repeat split. Qed.

Lemma same_but_ext_trans (s1 s2 s3 : Machine ext) :
  same_but_ext s1 s2 -> same_but_ext s2 s3 -> same_but_ext s1 s3.
Proof. unfold same_but_ext. intros (? & ? & ? & ?) (? & ? & ? & ?). repeat split; congruence. Qed.

Lemma ext_only_on_ext {A} (m : M ext A) : ext_only (on_ext m).
Proof.
  intros s. unfold on_ext, on_world.
  destruct (m (ext_state (world s))) as [r e]. by repeat split.
Qed.

Lemma ext_only_bind {A B} (m : M (Machine ext) A) (k : A -> M (Machine ext) B) :
  ext_only m -> (forall a, ext_only (k a)) -> ext_only (bind m k).
Proof.
  intros Hm Hk s. unfold bind. specialize (Hm s).
  destruct (m s) as [[a|e] s1]; simpl in *; [|exact Hm].
  eapply same_but_ext_trans; [exact Hm|apply Hk].
Qed.

Lemma ext_only_setup_logger instance metadata reset_logger :
  ext_only (setup_logger instance metadata reset_logger).
Proof.
  unfold setup_logger. destruct reset_logger;
    repeat (apply ext_only_bind; [|intros ?]); apply ext_only_on_ext.
Qed.

Lemma ext_only_keeps_calls {A} (m : M (Machine ext) A) :
  ext_only m -> keeps_calls m.
Proof. intros H s. apply H. Qed.

Lemma keeps_calls_on_world {A} (m : M (World ext) A) : keeps_calls (on_world m).
Proof. intros s. unfold on_world. by destruct (m (world s)). Qed.

Lemma keeps_calls_bind {A B} (m : M (Machine ext) A) (k : A -> M (Machine ext) B) :
  keeps_calls m -> (forall a, keeps_calls (k a)) -> keeps_calls (bind m k).
Proof.
  intros Hm Hk s. unfold bind. specialize (Hm s).
  destruct (m s) as [[a|e] s1]; simpl in *; [|exact Hm].
  rewrite Hk. exact Hm.
Qed.

Lemma keeps_calls_ret {A} (a : A) : keeps_calls (ret a).
Proof. by intros s. Qed.

Lemma keeps_calls_raise {A} (e : exn) : keeps_calls (@raise (Machine ext) A e).
Proof. by intros s. Qed.

Lemma keeps_calls_try_except {A} (body : M (Machine ext) A) handler :
  keeps_calls body -> (forall e, keeps_calls (handler e)) ->
  keeps_calls (try_except body handler).
Proof.
  intros Hb Hh s. unfold try_except. specialize (Hb s).
  destruct (body s) as [[a|e] s1]; simpl in *; [exact Hb|].
  destruct (is_Exception e); [|exact Hb]. rewrite Hh. exact Hb.
Qed.

Lemma keeps_calls_try_finally {A} (body : M (Machine ext) A) fin :
  keeps_calls body -> keeps_calls fin -> keeps_calls (try_finally body fin).
Proof.
  intros Hb Hf s. unfold try_finally. specialize (Hb s).
  destruct (body s) as [r s1]. specialize (Hf s1).
  destruct (fin s1) as [[[]|e] s2]; simpl in *; congruence.
Qed.

Lemma keeps_calls_setup_workspace : keeps_calls setup_workspace.
Proof.
  unfold setup_workspace, read_config, os_getpid, on_dirs,
    set_workspace_base, set_workspace_mount_path, write_config.
  repeat (apply keeps_calls_bind; [|intros ?]);
    (apply keeps_calls_on_world || apply keeps_calls_ret).
Qed.

Lemma keeps_calls_evaluate instance metadata instruction state :
  keeps_calls (evaluate instance metadata instruction state).
Proof.
  unfold evaluate. apply keeps_calls_bind; [|intros ?; apply keeps_calls_ret].
  apply ext_only_keeps_calls, ext_only_on_ext.
Qed.

(** What [setup_workspace] does to the machine. *)
Lemma setup_workspace_run (m : Machine ext) :
  let p := eval_workspace_path (workspace_mount_path (config (world m)))
             (getpid (world m)) in
  exists m',
    setup_workspace m = (Ok p, m') /\
    config (world m') = {| workspace_base := p; workspace_mount_path := p |} /\
    is_dir (Path p) (dirs (world m')) = true /\
    (is_dir (Path p) (dirs (world m)) = true ->
     dirs (world m') = dirs (world m)) /\
    getpid (world m') = getpid (world m) /\
    ext_state (world m') = ext_state (world m) /\
    agent_loop_calls m' = agent_loop_calls m.
Proof.
  intros p.
  destruct (Path_mkdir_parents (Path p) (dirs (world m)))
    as (fs' & Hrun & Hdir & _ & Hsame).
  unfold setup_workspace, bind, read_config, os_getpid, on_dirs, on_world,
    set_workspace_base, set_workspace_mount_path, write_config, ret.
  simpl. fold p. rewrite Hrun. simpl.
  eexists. split; [reflexivity|]. simpl. auto 10.
Qed.

(** The one call [invoke_agent] makes. *)
Lemma invoke_agent_call instance metadata agent instruction (s : Machine ext) :
  exists call,
    agent_loop_calls (invoke_agent instance metadata agent instruction s).2
      = call :: agent_loop_calls s /\
    call_world call = world s /\
    call_agent call = agent /\
    call_instruction call = instruction /\
    call_max_iterations call = max_iterations metadata /\
    call_fake_user_response_fn call
      = dict_get AGENT_CLS_TO_FAKE_USER_RESPONSE_FN (class_name agent) /\
    call_sid call = instance_id instance.
Proof.
  unfold invoke_agent, bind.
  destruct (run_agent_controller _ _ _ _ _ (world s)) as [[[st|]|e] w];
    simpl; eexists; (split; [reflexivity|]); simpl; auto 10.
Qed.

(** The body of the [try] statement enters the agent loop at most once,
    and only after the workspace is set up and the instruction built. *)
Lemma process_instance_body_calls instance metadata reset_logger agent
    (m : Machine ext) :
  let p := eval_workspace_path (workspace_mount_path (config (world m)))
             (getpid (world m)) in
  let m' := (process_instance_body instance metadata reset_logger agent m).2 in
  agent_loop_calls m' = agent_loop_calls m \/
  exists call instruction,
    agent_loop_calls m' = call :: agent_loop_calls m /\
    build_instruction instance agent = Ok instruction /\
    call_instruction call = instruction /\
    call_agent call = agent /\
    call_fake_user_response_fn call
      = dict_get AGENT_CLS_TO_FAKE_USER_RESPONSE_FN (class_name agent) /\
    call_sid call = instance_id instance /\
    config (call_world call)
      = {| workspace_base := p; workspace_mount_path := p |} /\
    is_dir (Path p) (dirs (call_world call)) = true.
Proof.
  intros p m'.
  assert (Hm' : m' = (process_instance_body instance metadata reset_logger agent m).2)
    by reflexivity.
  clearbody m'. revert Hm'.
  destruct (setup_workspace_run m) as (m1 & Hsw & Hcfg & Hdir & _ & _ & _ & Hcalls).
  fold p in Hsw, Hcfg, Hdir.
  unfold process_instance_body. unfold bind at 1. rewrite Hsw.
  unfold bind at 1.
  pose proof (ext_only_setup_logger instance metadata reset_logger m1) as H2.
  destruct (setup_logger instance metadata reset_logger m1) as [[[]|e] m2];
    simpl in H2; destruct H2 as (Hc2 & Hd2 & _ & Hk2);
    [|intros ->; left; simpl; congruence].
  unfold bind at 1.
  match goal with |- context [on_ext ?l m2] =>
    pose proof (ext_only_on_ext l m2) as H3; destruct (on_ext l m2) as [[[]|e] m3]
  end; simpl in H3; destruct H3 as (Hc3 & Hd3 & _ & Hk3);
    [|intros ->; left; simpl; congruence].
  unfold bind at 1, lift.
  destruct (build_instruction instance agent) as [instruction|e] eqn:Hb;
    [|intros ->; left; simpl; congruence].
  unfold bind.
  destruct (invoke_agent_call instance metadata agent instruction m3)
    as (call & Hcall & Hw & Ha & Hi & _ & Hf & Hs).
  intros ->. right. exists call, instruction.
  split.
  { destruct (invoke_agent instance metadata agent instruction m3) as [[st|e] m4];
      simpl in Hcall; [rewrite keeps_calls_evaluate|simpl]; congruence. }
  rewrite Hw. repeat split; try assumption; congruence.
Qed.

Lemma keeps_calls_restore (old_mount old_base : str) :
  keeps_calls (let* _ := set_workspace_mount_path old_mount in
               set_workspace_base old_base).
Proof.
  apply keeps_calls_bind; [|intros ?]; apply keeps_calls_on_world.
Qed.

Lemma keeps_calls_handler (e : exn) :
  keeps_calls (A := Output)
    (let* _ := on_ext (logger (LogError (py "Process instance failed"))) in
     raise e).
Proof.
  apply keeps_calls_bind; [|intros ?; apply keeps_calls_raise].
  apply ext_only_keeps_calls, ext_only_on_ext.
Qed.

Lemma try_except_calls {A} (body : M (Machine ext) A) handler s :
  (forall e, keeps_calls (handler e)) ->
  agent_loop_calls (try_except body handler s).2
  = agent_loop_calls (body s).2.
Proof.
  intros Hh. unfold try_except.
  destruct (body s) as [[a|e] s1]; simpl; [reflexivity|].
  destruct (is_Exception e); [apply Hh|reflexivity].
Qed.

Lemma try_finally_calls {A} (body : M (Machine ext) A) fin s :
  keeps_calls fin ->
  agent_loop_calls (try_finally body fin s).2 = agent_loop_calls (body s).2.
Proof.
  intros Hf. unfold try_finally. destruct (body s) as [r s1].
  specialize (Hf s1). destruct (fin s1) as [[[]|e] s2]; exact Hf.
Qed.

(** Neither the [except] clause nor the [finally] clause enters the agent
    loop. *)
Lemma process_instance_with_agent_calls instance metadata reset_logger agent
    (m : Machine ext) :
  agent_loop_calls
    (process_instance_with_agent instance metadata reset_logger agent m).2
  = agent_loop_calls
      (process_instance_body instance metadata reset_logger agent m).2.
Proof.
  destruct m as [w calls].
  unfold process_instance_with_agent, bind, read_config, on_world.
  cbn [world agent_loop_calls].
  rewrite try_finally_calls by apply keeps_calls_restore.
  apply try_except_calls. intros e. apply keeps_calls_handler.
Qed.

(** The [finally] clause puts back the two values read before the
    [try]. *)
Lemma process_instance_with_agent_config instance metadata reset_logger agent
    (m : Machine ext) :
  config (world
    (process_instance_with_agent instance metadata reset_logger agent m).2)
  = {| workspace_base := workspace_base (config (world m));
       workspace_mount_path := workspace_mount_path (config (world m)) |}.
Proof.
  destruct m as [w calls].
  unfold process_instance_with_agent, bind, read_config, on_world.
  cbn [world agent_loop_calls].
  unfold try_finally.
  destruct (try_except _ _ _) as [r s1].
  unfold set_workspace_mount_path, set_workspace_base, write_config, on_world,
    bind.
  reflexivity.
Qed.

(** C3: whatever [process_instance] does and however it ends, by
    returning or by raising, [config.workspace_mount_path] and
    [config.workspace_base] hold afterwards the values they held when it
    was called. *)
Theorem process_instance_restores_config instance metadata reset_logger
    (m : Machine ext) :
  workspace_mount_path
    (config (world (process_instance instance metadata reset_logger m).2))
  = workspace_mount_path (config (world m)) /\
  workspace_base
    (config (world (process_instance instance metadata reset_logger m).2))
  = workspace_base (config (world m)).
Proof.
  unfold process_instance, bind.
  pose proof (ext_only_on_ext
    (create_agent (agent_class metadata) (llm_config metadata)) m) as H0.
  destruct (on_ext _ m) as [[agent|e] m0]; simpl in H0;
    destruct H0 as (Hc0 & _).
  - rewrite process_instance_with_agent_config. simpl. by rewrite Hc0.
  - simpl. by rewrite Hc0.
Qed.

(** C8: the workspace of an evaluation is the directory [<pid>] inside
    [_eval_workspace] inside the base mount path (as text,
    [<base>/_eval_workspace/<pid>]); setting it up always succeeds, the
    directory exists afterwards, a directory that was already there is
    left as it was, and the agent loop runs with the configuration
    pointing at that path. *)
Theorem setup_workspace_spec (m : Machine ext) :
  let base := workspace_mount_path (config (world m)) in
  let pid := getpid (world m) in
  let p := eval_workspace_path base pid in
  Path p
    = path_child (path_child (Path base) (py "_eval_workspace"))
        (str_of_int pid) /\
  (base <> [] -> ends_with_sep base = false ->
   p = base ++ py "/_eval_workspace/" ++ str_of_int pid) /\
  (exists m',
     setup_workspace m = (Ok p, m') /\
     workspace_base (config (world m')) = p /\
     workspace_mount_path (config (world m')) = p /\
     is_dir (Path p) (dirs (world m')) = true /\
     (is_dir (Path p) (dirs (world m)) = true ->
      dirs (world m') = dirs (world m))) /\
  (forall instance metadata reset_logger call,
     call ∈ agent_loop_calls
              (process_instance instance metadata reset_logger m).2 ->
     call ∈ agent_loop_calls m \/
     (workspace_base (config (call_world call)) = p /\
      workspace_mount_path (config (call_world call)) = p /\
      is_dir (Path p) (dirs (call_world call)) = true)).
Proof.
  intros base pid p. split; [apply Path_eval_workspace_path|].
  split; [apply eval_workspace_path_text|]. split.
  - destruct (setup_workspace_run m) as (m' & Hrun & Hcfg & Hdir & Hsame & _).
    exists m'. fold base pid p in Hrun, Hcfg, Hdir, Hsame.
    rewrite Hcfg. auto.
  - intros instance metadata reset_logger call.
    unfold process_instance, bind.
    pose proof (ext_only_on_ext
      (create_agent (agent_class metadata) (llm_config metadata)) m) as H0.
    destruct (on_ext _ m) as [[agent|e] m0]; simpl in H0;
      destruct H0 as (Hc0 & _ & Hp0 & Hk0); [|simpl; rewrite Hk0; auto].
    rewrite process_instance_with_agent_calls.
    destruct (process_instance_body_calls instance metadata reset_logger agent m0)
      as [->|(call' & instruction & -> & _ & _ & _ & _ & _ & Hcfg & Hdir)].
    + rewrite Hk0. auto.
    + rewrite Hc0, Hp0 in Hcfg, Hdir. fold base pid p in Hcfg, Hdir.
      rewrite Hk0. intros [->|Hin]%elem_of_cons; [right|by left].
      rewrite Hcfg. auto.
Qed.

Lemma suffix_lookup_unknown (name : str) :
  name <> py "CodeActAgent" ->
  getitem AGENT_CLS_TO_INST_SUFFIX name = Raise (KeyError name).
Proof.
  intros Hne. unfold getitem, AGENT_CLS_TO_INST_SUFFIX.
  rewrite lookup_insert_ne by congruence. by rewrite lookup_empty.
Qed.

Lemma fake_lookup_unknown (name : str) :
  name <> py "CodeActAgent" -> name <> py "MonologueAgent" ->
  dict_get AGENT_CLS_TO_FAKE_USER_RESPONSE_FN name = None.
Proof.
  intros H1 H2. unfold dict_get, AGENT_CLS_TO_FAKE_USER_RESPONSE_FN.
  rewrite !lookup_insert_ne by congruence. apply lookup_empty.
Qed.

(** Without a suffix for the agent's class no instruction is built. *)
Lemma build_instruction_unknown instance agent instruction :
  class_name agent <> py "CodeActAgent" ->
  build_instruction instance agent <> Ok instruction.
Proof.
  intros Hne. unfold build_instruction.
  rewrite (suffix_lookup_unknown _ Hne).
  destruct (list_getitem (choices (prepared instance)) 0),
    (list_getitem (choices (prepared instance)) 1),
    (list_getitem (choices (prepared instance)) 2),
    (list_getitem (choices (prepared instance)) 3); discriminate.
Qed.

Lemma build_instruction_KeyError instance agent :
  class_name agent <> py "CodeActAgent" ->
  (4 <= length (choices (prepared instance)))%nat ->
  build_instruction instance agent = Raise (KeyError (class_name agent)).
Proof.
  intros Hne Hlen. unfold build_instruction.
  rewrite (suffix_lookup_unknown _ Hne).
  destruct (choices (prepared instance)) as [|c0 [|c1 [|c2 [|c3 rest]]]];
    simpl in Hlen; try lia. reflexivity.
Qed.

Lemma on_ext_logger_ok (call : LoggerCall) (s : Machine ext) :
  (forall call x, (logger call x).1 = Ok tt) ->
  exists s', on_ext (logger call) s = (Ok tt, s').
Proof.
  intros Hok. unfold on_ext, on_world. specialize (Hok call (ext_state (world s))).
  destruct (logger call (ext_state (world s))) as [r e]. simpl in Hok. subst r.
  eexists. reflexivity.
Qed.

Lemma setup_logger_ok instance metadata reset_logger (s : Machine ext) :
  (forall call x, (logger call x).1 = Ok tt) ->
  exists s', setup_logger instance metadata reset_logger s = (Ok tt, s').
Proof.
  intros Hok. unfold setup_logger. destruct reset_logger.
  - unfold bind.
    destruct (on_ext_logger_ok RemoveAllHandlers s Hok) as (s1 & ->).
    destruct (on_ext_logger_ok AddConsoleHandler s1 Hok) as (s2 & ->).
    match goal with |- context [on_ext (logger ?c) s2] =>
      destruct (on_ext_logger_ok c s2 Hok) as (s3 & ->) end.
    destruct (on_ext_logger_ok RemoveAllHandlers s3 Hok) as (s4 & ->).
    apply on_ext_logger_ok, Hok.
  - apply on_ext_logger_ok, Hok.
Qed.

(** When no instruction can be built the body of the [try] raises: the
    exception of [build_instruction], unless the logger raised first. *)
Lemma process_instance_body_build_fails instance metadata reset_logger agent
    (e0 : exn) (m : Machine ext) :
  build_instruction instance agent = Raise e0 ->
  exists e,
    (process_instance_body instance metadata reset_logger agent m).1 = Raise e /\
    ((forall call x, (logger call x).1 = Ok tt) -> e = e0).
Proof.
  intros Hb.
  destruct (setup_workspace_run m) as (m1 & Hsw & _).
  unfold process_instance_body. unfold bind at 1. rewrite Hsw.
  unfold bind at 1.
  destruct (setup_logger instance metadata reset_logger m1) as [[[]|e] m2] eqn:E2.
  - unfold bind at 1.
    match goal with |- context [on_ext (logger ?c) m2] =>
      destruct (on_ext (logger c) m2) as [[[]|e] m3] eqn:E3 end.
    + unfold bind at 1, lift. rewrite Hb. exists e0. split; [reflexivity|auto].
    + exists e. split; [reflexivity|]. intros Hok.
      match type of E3 with on_ext (logger ?c) m2 = _ =>
        destruct (on_ext_logger_ok c m2 Hok) as (s' & Hs') end. congruence.
  - exists e. split; [reflexivity|]. intros Hok.
    destruct (setup_logger_ok instance metadata reset_logger m1 Hok) as (s' & Hs').
    congruence.
Qed.

(** An exception of the body leaves [process_instance] as an exception:
    the same one, unless the logger raised in the [except] clause. *)
Lemma process_instance_with_agent_raises instance metadata reset_logger agent
    (e : exn) (m : Machine ext) :
  (process_instance_body instance metadata reset_logger agent m).1 = Raise e ->
  exists e',
    (process_instance_with_agent instance metadata reset_logger agent m).1
      = Raise e' /\
    ((forall call x, (logger call x).1 = Ok tt) -> e' = e).
Proof.
  destruct m as [w calls]. intros Hbody.
  unfold process_instance_with_agent, bind at 1, read_config, on_world.
  cbn [world agent_loop_calls].
  unfold try_finally, try_except.
  destruct (process_instance_body _ _ _ _ _) as [[out|e1] s1];
    simpl in Hbody; [discriminate|]. injection Hbody as ->.
  unfold set_workspace_mount_path, set_workspace_base, write_config, on_world.
  destruct (is_Exception e).
  - unfold bind, raise.
    destruct (on_ext (logger (LogError (py "Process instance failed"))) s1)
      as [[[]|e2] s2] eqn:E.
    + exists e. split; [reflexivity|auto].
    + exists e2. split; [reflexivity|]. intros Hok.
      match type of E with on_ext (logger ?c) s1 = _ =>
        destruct (on_ext_logger_ok c s1 Hok) as (s' & Hs') end. congruence.
  - exists e. split; [reflexivity|auto].
Qed.

(** C6: an agent whose class has no entry in the suffix registry, that
    is any class but [CodeActAgent], makes [build_instruction] raise
    [KeyError] for the class name (the [UnknownAgentClassError] of the
    specification); [process_instance] then ends with an exception, this
    [KeyError] when the logger does not fail, and the agent loop is not
    entered. *)
Theorem unknown_agent_class instance metadata reset_logger agent
    (m : Machine ext) :
  class_name agent <> py "CodeActAgent" ->
  (4 <= length (choices (prepared instance)))%nat ->
  build_instruction instance agent = Raise (KeyError (class_name agent)) /\
  (exists e,
     (process_instance_with_agent instance metadata reset_logger agent m).1
       = Raise e /\
     ((forall call x, (logger call x).1 = Ok tt) ->
      e = KeyError (class_name agent))) /\
  agent_loop_calls
    (process_instance_with_agent instance metadata reset_logger agent m).2
  = agent_loop_calls m.
Proof.
  intros Hne Hlen.
  pose proof (build_instruction_KeyError instance agent Hne Hlen) as Hb.
  split; [exact Hb|]. split.
  - destruct (process_instance_body_build_fails instance metadata reset_logger
                agent _ m Hb) as (e1 & Hbody & He1).
    destruct (process_instance_with_agent_raises instance metadata reset_logger
                agent e1 m Hbody) as (e' & Hrun & He').
    exists e'. split; [exact Hrun|]. intros Hok.
    rewrite (He' Hok). exact (He1 Hok).
  - rewrite process_instance_with_agent_calls.
    destruct (process_instance_body_calls instance metadata reset_logger agent m)
      as [H|(call & instruction & _ & Hok & _)]; [exact H|congruence].
Qed.

(** C9, as the code has it: for an agent class that is in neither
    registry the look-up with [.get] yields [None] and does not raise,
    where the look-up in the suffix registry raises [KeyError]; the call
    of the agent loop, entered with such an agent, passes that [None];
    but [process_instance] does not get that far, it ends with an
    exception and the agent loop is not entered. *)
Theorem fake_user_response_absent instance metadata reset_logger agent
    instruction (m : Machine ext) :
  class_name agent <> py "CodeActAgent" ->
  class_name agent <> py "MonologueAgent" ->
  dict_get AGENT_CLS_TO_FAKE_USER_RESPONSE_FN (class_name agent) = None /\
  getitem AGENT_CLS_TO_INST_SUFFIX (class_name agent)
    = Raise (KeyError (class_name agent)) /\
  (exists call,
     agent_loop_calls (invoke_agent instance metadata agent instruction m).2
       = call :: agent_loop_calls m /\
     call_fake_user_response_fn call = None) /\
  (exists e,
     (process_instance_with_agent instance metadata reset_logger agent m).1
       = Raise e) /\
  agent_loop_calls
    (process_instance_with_agent instance metadata reset_logger agent m).2
  = agent_loop_calls m.
Proof.
  intros Hne1 Hne2.
  pose proof (fake_lookup_unknown _ Hne1 Hne2) as Hfake.
  split; [exact Hfake|]. split; [by apply suffix_lookup_unknown|].
  split; [|split].
  - destruct (invoke_agent_call instance metadata agent instruction m)
      as (call & Hcall & _ & _ & _ & _ & Hf & _).
    exists call. split; [exact Hcall|]. by rewrite Hf.
  - destruct (build_instruction instance agent) as [i|e0] eqn:Hb;
      [by apply build_instruction_unknown in Hb|].
    destruct (process_instance_body_build_fails instance metadata reset_logger
                agent _ m Hb) as (e1 & Hbody & _).
    destruct (process_instance_with_agent_raises instance metadata reset_logger
                agent e1 m Hbody) as (e' & Hrun & _).
    eauto.
  - rewrite process_instance_with_agent_calls.
    destruct (process_instance_body_calls instance metadata reset_logger agent m)
      as [H|(call & i & _ & Hok & _)]; [exact H|].
    by apply build_instruction_unknown in Hok.
Qed.

End DriverProperties.

Lemma unknown_agent_class_monologue :
  build_instruction paris_instance {| class_name := py "MonologueAgent" |}
    = Raise (KeyError (py "MonologueAgent")) /\
  (exists e,
     (process_instance_with_agent (C := scripted (Ok (Some answer_B)))
        paris_instance (metadata_for (py "MonologueAgent")) true
        {| class_name := py "MonologueAgent" |} machine0).1 = Raise e /\
     ((forall call x,
         (logger (Collaborators := scripted (Ok (Some answer_B))) call x).1
           = Ok tt) ->
      e = KeyError (py "MonologueAgent"))) /\
  agent_loop_calls
    (process_instance_with_agent (C := scripted (Ok (Some answer_B)))
       paris_instance (metadata_for (py "MonologueAgent")) true
       {| class_name := py "MonologueAgent" |} machine0).2
  = agent_loop_calls machine0.
Proof.
  apply (unknown_agent_class (C := scripted (Ok (Some answer_B)))
           paris_instance (metadata_for (py "MonologueAgent")) true
           {| class_name := py "MonologueAgent" |} machine0).
  - discriminate.
  - simpl. lia.
Defined.

Lemma fake_user_response_absent_foo :
  dict_get AGENT_CLS_TO_FAKE_USER_RESPONSE_FN (py "FooAgent") = None /\
  getitem AGENT_CLS_TO_INST_SUFFIX (py "FooAgent")
    = Raise (KeyError (py "FooAgent")) /\
  (exists call,
     agent_loop_calls
       (invoke_agent (C := scripted (Ok (Some answer_B))) paris_instance
          (metadata_for (py "FooAgent")) {| class_name := py "FooAgent" |}
          (py "instruction") machine0).2
       = call :: agent_loop_calls machine0 /\
     call_fake_user_response_fn call = None) /\
  (exists e,
     (process_instance_with_agent (C := scripted (Ok (Some answer_B)))
        paris_instance (metadata_for (py "FooAgent")) true
        {| class_name := py "FooAgent" |} machine0).1 = Raise e) /\
  agent_loop_calls
    (process_instance_with_agent (C := scripted (Ok (Some answer_B)))
       paris_instance (metadata_for (py "FooAgent")) true
       {| class_name := py "FooAgent" |} machine0).2
  = agent_loop_calls machine0.
Proof.
  apply (fake_user_response_absent (C := scripted (Ok (Some answer_B)))
           paris_instance (metadata_for (py "FooAgent")) true
           {| class_name := py "FooAgent" |} (py "instruction") machine0);
    discriminate.
Defined.

(** The claim that [process_instance] hands [None] to the agent loop for
    a class missing from the fake-user-response registry fails on
    [FooAgent]: the look-up would give [None], but the run ends with
    [KeyError('FooAgent')] from the suffix registry and no call of the
    agent loop is made, with [None] or otherwise. *)
Lemma foo_agent_never_reaches_agent_loop :
  dict_get AGENT_CLS_TO_FAKE_USER_RESPONSE_FN (py "FooAgent") = None /\
  (process_instance (C := scripted (Ok (Some answer_B))) paris_instance
     (metadata_for (py "FooAgent")) true machine0).1
    = Raise (KeyError (py "FooAgent")) /\
  ~ exists call,
      call ∈ agent_loop_calls
               (process_instance (C := scripted (Ok (Some answer_B)))
                  paris_instance (metadata_for (py "FooAgent")) true
                  machine0).2 /\
      call_fake_user_response_fn call = None.
Proof.
  split; [reflexivity|]. split; [vm_compute; reflexivity|].
  intros (call & Hin & _).
  replace (agent_loop_calls _) with (@nil (AgentLoopCall (list LoggerCall)))
    in Hin by (vm_compute; reflexivity).
  by apply elem_of_nil in Hin.
Qed.

(** ** More on the answer extractor and the scorer *)

Section Extraction.

Lemma app_eq_inside {A} (l1 x l2 : list A) (a : A) (y : list A) :
  l1 ++ x = l2 ++ a :: y -> (length l2 < length l1)%nat -> a ∈ l1.
Proof.
  revert l2. induction l1 as [|b l1 IH]; intros [|b' l2]; simpl;
    intros Heq Hlen; try lia.
  - injection Heq as -> _. apply list_elem_of_here.
  - injection Heq as -> Heq. apply list_elem_of_further.
    apply (IH l2 Heq). lia.
Qed.

Lemma app_eq_same_length {A} (l1 x l2 y : list A) :
  l1 ++ x = l2 ++ y -> length l1 = length l2 -> l1 = l2 /\ x = y.
Proof.
  revert l2. induction l1 as [|a l1 IH]; intros [|b l2]; simpl;
    intros Heq Hlen; try discriminate.
  - by split.
  - injection Heq as -> Heq. injection Hlen as Hlen.
    destruct (IH l2 Heq Hlen) as [-> ->]. by split.
Qed.

(** The search returns the capture of the marker that starts first and,
    among those, closes first. *)
Lemma re_search_first (o c s pre cap post : str) :
  s = pre ++ o ++ cap ++ c ++ post ->
  (forall pre' cap' post', s = pre' ++ o ++ cap' ++ c ++ post' ->
     (length pre <= length pre')%nat /\
     (length pre' = length pre -> (length cap <= length cap')%nat)) ->
  re_search true [Lit o; LazyDotStarGroup; Lit c] s = Some (Some cap).
Proof.
  intros Hs Hfirst.
  destruct (re_search true [Lit o; LazyDotStarGroup; Lit c] s) as [r|] eqn:E.
  - apply re_search_Some in E as (pre0 & cap0 & post0 & Hs0 & -> & Hmin).
    destruct (Hfirst _ _ _ Hs0) as [Hle1 Hcap1].
    destruct (Hmin _ _ _ Hs) as [Hle0 Hcap0].
    assert (Hlen : length pre0 = length pre) by lia.
    rewrite Hs in Hs0.
    destruct (app_eq_same_length _ _ _ _ Hs0 (eq_sym Hlen)) as [-> Hrest].
    apply app_inv_head in Hrest.
    assert (Hlenc : length cap = length cap0).
    { specialize (Hcap1 eq_refl). specialize (Hcap0 eq_refl). lia. }
    destruct (app_eq_same_length _ _ _ _ Hrest Hlenc) as [-> _]. reflexivity.
  - destruct (re_search_None _ _ _ E _ _ _ Hs).
Qed.

Lemma parse_final_answer_first (s pre cap post : str) :
  first_marker s pre cap post -> parse_final_answer s = py_strip cap.
Proof.
  intros [Hs Hfirst]. unfold parse_final_answer, pattern.
  rewrite (re_search_first _ _ s pre cap post Hs Hfirst). reflexivity.
Qed.

(** A marker whose text before holds no [<] and whose capture holds no
    [|] is the first marker of the message. *)
Lemma first_marker_plain (pre cap post : str) :
  Forall (fun c => c <> 60) pre ->
  Forall (fun c => c <> 124) cap ->
  first_marker (pre ++ FINAL_ANSWER_OPEN ++ cap ++ FINAL_ANSWER_CLOSE ++ post)
    pre cap post.
Proof.
  intros Hpre Hcap. split; [reflexivity|].
  intros pre' cap' post' Heq. unfold marker_at in Heq. split.
  - destruct (Nat.le_gt_cases (length pre) (length pre')) as [H|H]; [exact H|].
    change FINAL_ANSWER_OPEN with (60 :: py "<FINAL_ANSWER||") in Heq at 2.
    simpl in Heq. apply app_eq_inside in Heq; [|exact H].
    rewrite Forall_forall in Hpre. destruct (Hpre _ Heq eq_refl).
  - intros Hlen.
    destruct (app_eq_same_length _ _ _ _ Heq (eq_sym Hlen)) as [-> Hrest].
    apply app_inv_head in Hrest.
    destruct (Nat.le_gt_cases (length cap) (length cap')) as [H|H]; [exact H|].
    change FINAL_ANSWER_CLOSE with (124 :: py "|FINAL_ANSWER>>") in Hrest at 2.
    simpl in Hrest. apply app_eq_inside in Hrest; [|exact H].
    rewrite Forall_forall in Hcap. destruct (Hcap _ Hrest eq_refl).
Qed.

Lemma lstrip_spaces (ws x : str) :
  Forall (fun c => is_space c = true) ws -> lstrip (ws ++ x) = lstrip x.
Proof. induction 1 as [|c ws Hc _ IH]; simpl; [reflexivity|]. by rewrite Hc. Qed.

Lemma lstrip_fixed (x : str) :
  (forall c, head x = Some c -> is_space c = false) -> lstrip x = x.
Proof. destruct x as [|c x]; simpl; [reflexivity|]. intros H. by rewrite (H c). Qed.

Lemma rstrip_spaces (x ws : str) :
  Forall (fun c => is_space c = true) ws -> rstrip (x ++ ws) = rstrip x.
Proof.
  intros Hws. unfold rstrip. rewrite rev_app_distr, lstrip_spaces; [reflexivity|].
  rewrite Forall_forall in *. intros c Hc. apply Hws.
  apply list_elem_of_In, in_rev, list_elem_of_In. exact Hc.
Qed.

Lemma rstrip_fixed (x : str) :
  (forall c, last x = Some c -> is_space c = false) -> rstrip x = x.
Proof.
  intros H. unfold rstrip. rewrite lstrip_fixed; [apply rev_involutive|].
  intros c Hc. apply H. by rewrite <- last_rev, rev_involutive in Hc.
Qed.

(** Whitespace around a token that has none at its own ends is all that
    [strip] removes. *)
Lemma py_strip_padded (ws1 t ws2 : str) :
  Forall (fun c => is_space c = true) ws1 ->
  Forall (fun c => is_space c = true) ws2 ->
  (forall c, head t = Some c -> is_space c = false) ->
  (forall c, last t = Some c -> is_space c = false) ->
  py_strip (ws1 ++ t ++ ws2) = t.
Proof.
  intros H1 H2 Hhead Hlast. unfold py_strip. rewrite lstrip_spaces by exact H1.
  destruct t as [|c t].
  - simpl. rewrite <- (app_nil_r ws2), lstrip_spaces by exact H2. reflexivity.
  - rewrite lstrip_fixed by (simpl; intros ? [= <-]; by apply Hhead).
    rewrite rstrip_spaces by exact H2. by apply rstrip_fixed.
Qed.

Lemma py_strip_fixed (t : str) :
  (forall c, head t = Some c -> is_space c = false) ->
  (forall c, last t = Some c -> is_space c = false) ->
  py_strip t = t.
Proof.
  intros Hhead Hlast.
  rewrite <- (py_strip_padded [] t [] ltac:(constructor) ltac:(constructor) Hhead Hlast)
    at 2.
  by rewrite app_nil_r.
Qed.

Lemma spaces_no_bar (ws : str) :
  Forall (fun c => is_space c = true) ws -> Forall (fun c => c <> 124) ws.
Proof.
  intros H. eapply Forall_impl; [exact H|]. intros c Hc ->. discriminate.
Qed.

(** X1: a message in which no [<] comes before the marker and no [|]
    stands inside it yields the stripped text between the delimiters,
    whatever follows the marker. *)
Theorem parse_final_answer_well_formed (pre cap post : str) :
  Forall (fun c => c <> 60) pre ->
  Forall (fun c => c <> 124) cap ->
  parse_final_answer
    (pre ++ FINAL_ANSWER_OPEN ++ cap ++ FINAL_ANSWER_CLOSE ++ post)
  = py_strip cap.
Proof.
  intros Hpre Hcap. eapply parse_final_answer_first.
  by apply first_marker_plain.
Qed.

(** X2: what [parse_final_answer] returns never starts or ends with
    whitespace: stripping it again changes nothing. *)
Theorem parse_final_answer_stripped (s : str) :
  py_strip (parse_final_answer s) = parse_final_answer s /\
  (forall c, head (parse_final_answer s) = Some c -> is_space c = false) /\
  (forall c, last (parse_final_answer s) = Some c -> is_space c = false).
Proof.
  assert (H : (forall c, head (parse_final_answer s) = Some c -> is_space c = false) /\
              (forall c, last (parse_final_answer s) = Some c -> is_space c = false)).
  { unfold parse_final_answer.
    destruct (re_search true pattern s) as [[cap|]|].
    - destruct (py_strip_trimmed cap) as (_ & _ & _ & _ & _ & Hh & Hl). by split.
    - split; intros c [= <-]; reflexivity.
    - split; intros c [= <-]; reflexivity. }
  destruct H as [Hh Hl]. split; [|by split]. by apply py_strip_fixed.
Qed.

(** X3: [get_test_result] is true in exactly two cases: the stripped
    capture of the first marker is the ground truth, or the message has
    no marker and the ground truth is the sentinel text itself. *)
Theorem get_test_result_true_iff (s gt : str) :
  get_test_result s gt = true <->
  (exists pre cap post, first_marker s pre cap post /\ py_strip cap = gt) \/
  (~ has_marker s /\ gt = NO_FINAL_ANSWER).
Proof.
  unfold get_test_result, compare_answers. rewrite str_eq_spec. split.
  - intros Hp. destruct (re_search true pattern s) as [r|] eqn:E.
    + left. pose proof E as E'.
      apply re_search_Some in E' as (pre & cap & post & Heq & -> & Hmin).
      exists pre, cap, post. split; [by split|].
      unfold parse_final_answer in Hp. by rewrite E in Hp.
    + right. apply search_no_marker in E. split; [exact E|].
      by rewrite parse_final_answer_no_marker in Hp.
  - intros [(pre & cap & post & Hfirst & <-)|[Hno ->]].
    + by eapply parse_final_answer_first.
    + by apply parse_final_answer_no_marker.
Qed.

(** X4: an answer written in the requested format, a token with any
    whitespace around it between the delimiters, is scored as correct
    exactly when the token is the ground truth; an empty token counts as
    the empty string. *)
Theorem get_test_result_padded_token (pre ws1 t ws2 post gt : str) :
  Forall (fun c => c <> 60) pre ->
  Forall (fun c => is_space c = true) ws1 ->
  Forall (fun c => is_space c = true) ws2 ->
  Forall (fun c => c <> 124) t ->
  (forall c, head t = Some c -> is_space c = false) ->
  (forall c, last t = Some c -> is_space c = false) ->
  parse_final_answer
    (pre ++ FINAL_ANSWER_OPEN ++ (ws1 ++ t ++ ws2) ++ FINAL_ANSWER_CLOSE ++ post)
  = t /\
  (get_test_result
     (pre ++ FINAL_ANSWER_OPEN ++ (ws1 ++ t ++ ws2) ++ FINAL_ANSWER_CLOSE ++ post)
     gt = true <-> t = gt).
Proof.
  intros Hpre H1 H2 Ht Hhead Hlast.
  assert (Hp : parse_final_answer
            (pre ++ FINAL_ANSWER_OPEN ++ (ws1 ++ t ++ ws2)
               ++ FINAL_ANSWER_CLOSE ++ post) = t).
  { eapply eq_trans; [eapply parse_final_answer_first, first_marker_plain|].
    - exact Hpre.
    - rewrite !Forall_app. auto using spaces_no_bar.
    - by apply py_strip_padded. }
  split; [exact Hp|].
  unfold get_test_result, compare_answers. rewrite Hp. apply str_eq_spec.
Qed.

End Extraction.

Lemma parse_final_answer_well_formed_B :
  parse_final_answer
    (py "My answer: " ++ FINAL_ANSWER_OPEN ++ (nl ++ py "B" ++ nl)
       ++ FINAL_ANSWER_CLOSE ++ py " <<FINAL_ANSWER||C||FINAL_ANSWER>>")
  = py_strip (nl ++ py "B" ++ nl).
Proof.
  apply (parse_final_answer_well_formed (py "My answer: ") (nl ++ py "B" ++ nl)
           (py " <<FINAL_ANSWER||C||FINAL_ANSWER>>"));
    repeat constructor; discriminate.
Defined.

Lemma get_test_result_padded_token_B :
  parse_final_answer
    (py "My answer: " ++ FINAL_ANSWER_OPEN ++ (nl ++ py "B" ++ py "  ")
       ++ FINAL_ANSWER_CLOSE ++ py " done")
  = py "B" /\
  (get_test_result
     (py "My answer: " ++ FINAL_ANSWER_OPEN ++ (nl ++ py "B" ++ py "  ")
        ++ FINAL_ANSWER_CLOSE ++ py " done")
     (py "B") = true <-> py "B" = py "B").
Proof.
  apply (get_test_result_padded_token (py "My answer: ") nl (py "B") (py "  ")
           (py " done") (py "B")).
  - repeat constructor; discriminate.
  - repeat constructor.
  - repeat constructor.
  - repeat constructor; discriminate.
  - intros c [= <-]. reflexivity.
  - intros c [= <-]. reflexivity.
Defined.

(** ** More on the instance preparer and the instruction *)

Section Instruction.
Context {RS : RandomSource}.

Lemma shuffle_loop_draws {A} (i : nat) (x : list A) (g : rng) :
  (i < length x)%nat ->
  exists x', shuffle_loop i x g = (Ok x', shuffle_draws i g) /\ x' ≡ₚ x.
Proof.
  revert x g. induction i as [|i IH]; intros x g Hi; simpl.
  - exists x. split; reflexivity.
  - unfold bind at 1.
    pose proof (randbelow_lt (S (i + 1)) g ltac:(lia)) as Hj.
    destruct (randbelow (S (i + 1)) g) as [j g1]. simpl in Hj. simpl snd.
    destruct (swap_items_Permutation x (S i) j Hi ltac:(lia)) as (x1 & Hswap & Hperm).
    unfold bind, lift. rewrite Hswap.
    destruct (IH x1 g1) as (x' & Hloop & Hperm').
    { apply Permutation_length in Hperm. lia. }
    exists x'. split; [exact Hloop|]. by rewrite Hperm'.
Qed.

(** X5: preparing a record copies the question unchanged and takes
    exactly three draws from the random source, below 4, 3 and 2 in
    that order. *)
Theorem convert_instance_dict_draws (instance : gmap str str) (g : rng)
    (q c i1 i2 i3 : str) :
  instance !! py "Question" = Some q ->
  instance !! py "Correct Answer" = Some c ->
  instance !! py "Incorrect Answer 1" = Some i1 ->
  instance !! py "Incorrect Answer 2" = Some i2 ->
  instance !! py "Incorrect Answer 3" = Some i3 ->
  exists out,
    convert_instance_dict instance g
      = (Ok out, (randbelow 2 (randbelow 3 (randbelow 4 g).2).2).2) /\
    question out = q.
Proof.
  intros Hq Hc H1 H2 H3.
  destruct (shuffle_loop_draws 3 [c; i1; i2; i3] g ltac:(simpl; lia))
    as (x & Hsh & Hperm).
  assert (Hin : c ∈ x) by (rewrite Hperm; set_solver).
  destruct (list_index_first x c Hin) as (index & Hidx & Hlook & _).
  assert (Hlt : (index < 4)%nat).
  { apply lookup_lt_Some in Hlook. apply Permutation_length in Hperm.
    simpl in Hperm. lia. }
  eexists. split.
  - unfold convert_instance_dict, bind, lift, getitem, ret, shuffle.
    rewrite Hq, Hc, H1, H2, H3. simpl length. simpl Nat.sub.
    rewrite Hsh, Hidx. unfold py_chr.
    destruct (N.ltb_spec (65 + N.of_nat index) 1114112); [|lia].
    reflexivity.
  - reflexivity.
Qed.

Lemma suffix_lookup_CodeAct :
  getitem AGENT_CLS_TO_INST_SUFFIX (py "CodeActAgent") = Ok CODEACT_SUFFIX.
Proof. unfold getitem, AGENT_CLS_TO_INST_SUFFIX. by rewrite lookup_insert_eq. Qed.

(** The instruction of an agent of class [CodeActAgent], in parts; only
    the first four choices are used. *)
Lemma build_instruction_CodeAct instance agent (c0 c1 c2 c3 : str) rest :
  class_name agent = py "CodeActAgent" ->
  choices (prepared instance) = c0 :: c1 :: c2 :: c3 :: rest ->
  build_instruction instance agent
  = Ok (instruction_head (question (prepared instance))
        ++ choice_line (py "A") c0 ++ choice_line (py "B") c1
        ++ choice_line (py "C") c2 ++ choice_line (py "D") c3
        ++ instruction_tail ++ CODEACT_SUFFIX).
Proof.
  intros Hcls Hch. unfold build_instruction. rewrite Hcls, Hch.
  rewrite suffix_lookup_CodeAct. cbn [list_getitem lookup list_lookup].
  f_equal. unfold instruction_head, choice_line, instruction_tail.
  rewrite <- !app_assoc. reflexivity.
Qed.

(** X6: with fewer than four choices no instruction is built: the
    f-string raises [IndexError] before the agent's class is looked
    up, for every class. *)
Theorem build_instruction_IndexError instance agent :
  (length (choices (prepared instance)) < 4)%nat ->
  build_instruction instance agent = Raise IndexError.
Proof.
  intros Hlen. unfold build_instruction.
  destruct (choices (prepared instance)) as [|c0 [|c1 [|c2 [|c3 rest]]]];
    simpl in Hlen; try lia; reflexivity.
Qed.

(** X7: a record prepared by [convert_instance_dict] always gives an
    instruction for an agent of class [CodeActAgent], and in it the line
    labelled with the correct letter shows the correct answer. *)
Theorem prepared_instruction_shows_answer (instance : gmap str str) (g : rng)
    (q c i1 i2 i3 : str) (id tid : N) (agent : Agent) :
  instance !! py "Question" = Some q ->
  instance !! py "Correct Answer" = Some c ->
  instance !! py "Incorrect Answer 1" = Some i1 ->
  instance !! py "Incorrect Answer 2" = Some i2 ->
  instance !! py "Incorrect Answer 3" = Some i3 ->
  class_name agent = py "CodeActAgent" ->
  exists out g' before after,
    convert_instance_dict instance g = (Ok out, g') /\
    build_instruction
      {| prepared := out; instance_id := id; task_id := tid |} agent
    = Ok (before ++ choice_line (correct_solution out) c ++ after).
Proof.
  intros Hq Hc H1 H2 H3 Hcls.
  destruct (convert_instance_dict_Ok instance g q c i1 i2 i3 Hq Hc H1 H2 H3)
    as (out & g' & index & Hrun & _ & Hperm & Hlt & _ & Hlook & _ & Hsol).
  apply Permutation_length in Hperm.
  destruct out as [oq och osol]. simpl in *.
  destruct och as [|c0 [|c1 [|c2 [|c3 [|]]]]]; try discriminate.
  exists {| question := oq; choices := [c0; c1; c2; c3]; correct_solution := osol |}, g'.
  pose proof (build_instruction_CodeAct
    {| prepared := {| question := oq; choices := [c0; c1; c2; c3];
                      correct_solution := osol |};
       instance_id := id; task_id := tid |} agent c0 c1 c2 c3 [] Hcls eq_refl)
    as Hb.
  cbn [prepared question choices] in Hb. rewrite Hb. subst osol.
  destruct index as [|[|[|[|?]]]]; try lia; simpl in Hlook;
    injection Hlook as ->.
  - exists (instruction_head oq), (choice_line (py "B") c1
      ++ choice_line (py "C") c2 ++ choice_line (py "D") c3
      ++ instruction_tail ++ CODEACT_SUFFIX).
    split; [exact Hrun|]. reflexivity.
  - exists (instruction_head oq ++ choice_line (py "A") c0),
      (choice_line (py "C") c2 ++ choice_line (py "D") c3
       ++ instruction_tail ++ CODEACT_SUFFIX).
    split; [exact Hrun|]. rewrite <- ?app_assoc. reflexivity.
  - exists (instruction_head oq ++ choice_line (py "A") c0
            ++ choice_line (py "B") c1),
      (choice_line (py "D") c3 ++ instruction_tail ++ CODEACT_SUFFIX).
    split; [exact Hrun|]. rewrite <- ?app_assoc. reflexivity.
  - exists (instruction_head oq ++ choice_line (py "A") c0
            ++ choice_line (py "B") c1 ++ choice_line (py "C") c2),
      (instruction_tail ++ CODEACT_SUFFIX).
    split; [exact Hrun|]. rewrite <- ?app_assoc. reflexivity.
Qed.

End Instruction.

Lemma convert_instance_dict_draws_paris :
  exists out,
    convert_instance_dict (RS := tape_random) paris_record [3; 2; 0; 7]%nat
      = (Ok out,
         (randbelow (RandomSource := tape_random) 2
            (randbelow (RandomSource := tape_random) 3
               (randbelow (RandomSource := tape_random) 4
                  [3; 2; 0; 7]%nat).2).2).2) /\
    question out = py "What is the capital of France?".
Proof.
  apply (convert_instance_dict_draws (RS := tape_random) paris_record
           [3; 2; 0; 7]%nat (py "What is the capital of France?")
           (py "Paris") (py "London") (py "Rome") (py "Berlin"));
    vm_compute; reflexivity.
Defined.

Lemma build_instruction_IndexError_three :
  build_instruction
    {| prepared := {| question := py "Q";
                      choices := [py "a"; py "b"; py "c"];
                      correct_solution := py "A" |};
       instance_id := 0; task_id := 0 |}
    {| class_name := py "CodeActAgent" |}
  = Raise IndexError.
Proof.
  apply (build_instruction_IndexError
           {| prepared := {| question := py "Q";
                             choices := [py "a"; py "b"; py "c"];
                             correct_solution := py "A" |};
              instance_id := 0; task_id := 0 |}
           {| class_name := py "CodeActAgent" |}).
  simpl. lia.
Defined.

Lemma prepared_instruction_shows_answer_paris :
  exists out g' before after,
    convert_instance_dict (RS := tape_random) paris_record [3; 2; 0]%nat
      = (Ok out, g') /\
    build_instruction
      {| prepared := out; instance_id := 0; task_id := 0 |}
      {| class_name := py "CodeActAgent" |}
    = Ok (before ++ choice_line (correct_solution out) (py "Paris") ++ after).
Proof.
  apply (prepared_instruction_shows_answer (RS := tape_random) paris_record
           [3; 2; 0]%nat (py "What is the capital of France?")
           (py "Paris") (py "London") (py "Rome") (py "Berlin") 0 0
           {| class_name := py "CodeActAgent" |});
    vm_compute; reflexivity.
Defined.

(** ** More on the workspace directory *)

Section Workspace.
Context {C : Collaborators}.

Lemma uint_to_str_inj (d d' : Decimal.uint) :
  uint_to_str d = uint_to_str d' -> d = d'.
Proof.
  revert d'. induction d; intros [] H; simpl in H;
    try discriminate H; try reflexivity;
    injection H as H; f_equal; auto.
Qed.

Lemma str_of_int_inj (n n' : N) : str_of_int n = str_of_int n' -> n = n'.
Proof.
  intros H. apply DecimalN.Unsigned.to_uint_inj, uint_to_str_inj, H.
Qed.

(** X8: two processes with different ids get different workspace
    directories below the same base, and neither is the base directory
    itself. *)
Theorem eval_workspace_path_separates (base : str) (pid1 pid2 : N) :
  pid1 <> pid2 ->
  Path (eval_workspace_path base pid1) <> Path (eval_workspace_path base pid2) /\
  Path (eval_workspace_path base pid1) <> Path base.
Proof.
  intros Hne. rewrite !Path_eval_workspace_path. unfold path_child.
  cbn [fst snd]. split.
  - intros [= H]. apply app_inj_tail in H as [_ H].
    apply Hne, str_of_int_inj, H.
  - intros H. apply (f_equal (fun p => length p.2)) in H. cbn [snd] in H.
    rewrite !length_app in H. simpl in H. lia.
Qed.

Lemma is_dir_mono (p : PurePath) (fs fs' : Dirs) :
  fs ⊆ fs' -> is_dir p fs = true -> is_dir p fs' = true.
Proof.
  unfold is_dir. destruct (p.2); [done|]. intros Hsub.
  rewrite !bool_decide_eq_true. set_solver.
Qed.

Lemma parent_closed_insert (p : PurePath) (fs : Dirs) :
  parent_closed fs -> is_dir (p.1, removelast p.2) fs = true ->
  parent_closed ({[ p ]} ∪ fs).
Proof.
  intros Hfs Hp q Hq. apply (is_dir_mono _ fs); [apply union_subseteq_r|].
  apply elem_of_union in Hq. destruct Hq as [Hq|Hq]; [|by apply Hfs].
  apply elem_of_singleton in Hq. subst q. exact Hp.
Qed.

(** [mkdir(parents=True, exist_ok=True)] keeps what is there and keeps
    the tree closed under parents. *)
Lemma Path_mkdir_rev_closed (root : nat) (rparts : list str) (fs : Dirs) :
  parent_closed fs ->
  exists fs',
    Path_mkdir_rev root rparts true true fs = (Ok tt, fs') /\
    is_dir (root, rev rparts) fs' = true /\
    fs ⊆ fs' /\ parent_closed fs'.
Proof.
  revert fs. induction rparts as [|c rparent IH]; intros fs Hfs.
  - exists fs. simpl. repeat split; try reflexivity. exact Hfs.
  - rewrite Path_mkdir_rev_cons.
    assert (Hparent : removelast (rev (c :: rparent)) = rev rparent)
      by apply removelast_last.
    remember (rev (c :: rparent)) as parts eqn:Hparts. clear Hparts.
    destruct (os_mkdir_cases (root, parts) fs)
      as [(Hd & ->)|[(Hd & Hp & ->)|(Hd & Hp & ->)]].
    + rewrite Hd. exists fs. repeat split; auto.
    + eexists. split; [reflexivity|]. split; [apply is_dir_new|].
      split; [set_solver|]. by apply parent_closed_insert.
    + destruct (IH fs Hfs) as (fs1 & -> & Hd1 & Hsub & Hfs1).
      unfold Path_mkdir_here.
      destruct (os_mkdir_cases (root, parts) fs1)
        as [(Hd2 & ->)|[(Hd2 & Hp2 & ->)|(Hd2 & Hp2 & ->)]].
      * rewrite Hd2. exists fs1. repeat split; auto.
      * eexists. split; [reflexivity|]. split; [apply is_dir_new|].
        split; [set_solver|]. by apply parent_closed_insert.
      * simpl in Hp2. rewrite Hparent in Hp2. congruence.
Qed.

(** In a tree closed under parents a directory has all its ancestors. *)
Lemma parent_closed_ancestors (fs : Dirs) (root : nat) (parts : list str) :
  parent_closed fs -> is_dir (root, parts) fs = true ->
  forall k, is_dir (root, take k parts) fs = true.
Proof.
  intros Hfs. induction parts as [|x parts IH] using rev_ind; intros Hd k.
  - by rewrite take_nil.
  - assert (Hparent : is_dir (root, parts) fs = true).
    { unfold is_dir in Hd. simpl in Hd.
      destruct (parts ++ [x]) as [|y l] eqn:E; [by destruct parts|].
      apply bool_decide_eq_true in Hd. rewrite <- E in Hd.
      specialize (Hfs _ Hd). simpl in Hfs.
      by rewrite removelast_last in Hfs. }
    destruct (Nat.le_gt_cases k (length parts)) as [Hk|Hk].
    + rewrite take_app_le by exact Hk. by apply IH.
    + rewrite take_ge by (rewrite length_app; simpl; lia). exact Hd.
Qed.

Lemma setup_workspace_dirs (m : Machine ext) :
  exists m',
    setup_workspace m
      = (Ok (eval_workspace_path (workspace_mount_path (config (world m)))
               (getpid (world m))), m') /\
    dirs (world m')
      = (Path_mkdir
           (Path (eval_workspace_path (workspace_mount_path (config (world m)))
                    (getpid (world m))))
           true true (dirs (world m))).2.
Proof.
  destruct (Path_mkdir_parents
              (Path (eval_workspace_path (workspace_mount_path (config (world m)))
                       (getpid (world m))))
              (dirs (world m))) as (fs' & Hrun & _).
  unfold setup_workspace, bind, read_config, os_getpid, on_dirs, on_world,
    set_workspace_base, set_workspace_mount_path, write_config, ret.
  simpl. rewrite Hrun. simpl. eexists. split; reflexivity.
Qed.

(** X9: setting up the workspace removes no directory, whatever the
    tree; when every directory of the tree has its parent this still
    holds afterwards, and every ancestor of the workspace directory
    exists. *)
Theorem setup_workspace_tree (m : Machine ext) :
  exists p m',
    setup_workspace m = (Ok p, m') /\
    dirs (world m) ⊆ dirs (world m') /\
    (parent_closed (dirs (world m)) ->
     parent_closed (dirs (world m')) /\
     forall k,
       is_dir ((Path p).1, take k (Path p).2) (dirs (world m')) = true).
Proof.
  destruct (setup_workspace_dirs m) as (m' & Hrun & Hdirs).
  eexists _, m'. split; [exact Hrun|]. split.
  - match type of Hdirs with _ = (Path_mkdir ?p true true _).2 =>
      destruct (Path_mkdir_parents p (dirs (world m)))
        as (fs' & Hmk & _ & Hsub & _) end.
    rewrite Hmk in Hdirs. simpl in Hdirs. by rewrite Hdirs.
  - intros Hfs. unfold Path_mkdir in Hdirs.
    match type of Hdirs with _ = (Path_mkdir_rev ?r ?rp true true _).2 =>
      destruct (Path_mkdir_rev_closed r rp (dirs (world m)) Hfs)
        as (fs' & Hmk & Hd & _ & Hclosed) end.
    rewrite Hmk in Hdirs. simpl in Hdirs. rewrite Hdirs.
    split; [exact Hclosed|].
    rewrite rev_involutive in Hd.
    by apply parent_closed_ancestors.
Qed.

End Workspace.

Lemma eval_workspace_path_separates_pids :
  Path (eval_workspace_path (py "/mnt") 4242)
    <> Path (eval_workspace_path (py "/mnt") 4243) /\
  Path (eval_workspace_path (py "/mnt") 4242) <> Path (py "/mnt").
Proof.
  apply (eval_workspace_path_separates (py "/mnt") 4242 4243). discriminate.
Defined.

Lemma parent_closed_machine_with_dirs :
  parent_closed (dirs (world machine_with_dirs)).
Proof.
  intros q Hq. cbn [machine_with_dirs world dirs] in Hq.
  apply elem_of_union in Hq as [Hq|Hq];
    [apply elem_of_union in Hq as [Hq|Hq]|];
    apply elem_of_singleton in Hq; subst q; vm_compute; reflexivity.
Qed.

Lemma setup_workspace_tree_with_dirs :
  exists p m',
    setup_workspace (C := scripted (Ok None)) machine_with_dirs = (Ok p, m') /\
    dirs (world machine_with_dirs) ⊆ dirs (world m') /\
    parent_closed (dirs (world m')) /\
    forall k,
      is_dir ((Path p).1, take k (Path p).2) (dirs (world m')) = true.
Proof.
  destruct (setup_workspace_tree (C := scripted (Ok None)) machine_with_dirs)
    as (p & m' & Hrun & Hsub & Hclosed).
  exists p, m'. split; [exact Hrun|]. split; [exact Hsub|].
  apply Hclosed, parent_closed_machine_with_dirs.
Defined.

(** ** More on the driver *)

Section Runs.
Context {C : Collaborators}.

Lemma process_instance_with_agent_unfold instance metadata reset_logger agent
    (m : Machine ext) :
  process_instance_with_agent instance metadata reset_logger agent m =
  try_finally
    (try_except
       (process_instance_body instance metadata reset_logger agent)
       (fun e =>
          let* _ := on_ext (logger (LogError (py "Process instance failed"))) in
          raise e))
    (let* _ := set_workspace_mount_path (workspace_mount_path (config (world m))) in
     set_workspace_base (workspace_base (config (world m)))) m.
Proof. destruct m as [w calls]. reflexivity. Qed.

(** The [finally] clause does not raise, so it leaves the result of the
    [try] statement as it is. *)
Lemma try_finally_restore_result {A} (body : M (Machine ext) A)
    (old_mount old_base : str) (m : Machine ext) :
  (try_finally body
     (let* _ := set_workspace_mount_path old_mount in
      set_workspace_base old_base) m).1 = (body m).1.
Proof. unfold try_finally. destruct (body m) as [r s1]. reflexivity. Qed.

Lemma process_instance_with_agent_result instance metadata reset_logger agent
    (m : Machine ext) :
  (process_instance_with_agent instance metadata reset_logger agent m).1 =
  (try_except
     (process_instance_body instance metadata reset_logger agent)
     (fun e =>
        let* _ := on_ext (logger (LogError (py "Process instance failed"))) in
        raise e) m).1.
Proof.
  rewrite process_instance_with_agent_unfold. apply try_finally_restore_result.
Qed.

(** X10: an exception of the [try] body is never turned into a normal
    return; the caller gets that very exception, unless it is an
    [Exception] and logging the failure raises, in which case it gets the
    logger's. *)
Theorem process_instance_reraises instance metadata reset_logger agent
    (e : exn) (m : Machine ext) :
  (process_instance_body instance metadata reset_logger agent m).1 = Raise e ->
  exists e',
    (process_instance_with_agent instance metadata reset_logger agent m).1
      = Raise e' /\
    (e' = e \/
     (is_Exception e = true /\
      exists x,
        (logger (LogError (py "Process instance failed")) x).1 = Raise e')).
Proof.
  intros Hbody. rewrite process_instance_with_agent_result. unfold try_except.
  destruct (process_instance_body _ _ _ _ m) as [[out|e1] s1];
    simpl in Hbody; [discriminate|]. injection Hbody as ->.
  destruct (is_Exception e); [|exists e; split; [reflexivity|by left]].
  unfold bind, on_ext, on_world, raise.
  destruct (logger (LogError (py "Process instance failed")) (ext_state (world s1)))
    as [[[]|e2] x] eqn:E; simpl.
  - exists e. split; [reflexivity|by left].
  - exists e2. split; [reflexivity|]. right. split; [reflexivity|].
    exists (ext_state (world s1)). by rewrite E.
Qed.

(** When the logger does not raise, the [except] clause hands on the
    result of the body. *)
Lemma try_except_logged {A} (body : M (Machine ext) A) (m : Machine ext) :
  (forall call x, (logger call x).1 = Ok tt) ->
  (try_except body
     (fun e =>
        let* _ := on_ext (logger (LogError (py "Process instance failed"))) in
        raise e) m).1 = (body m).1.
Proof.
  intros Hlog. unfold try_except. destruct (body m) as [[a|e] s1]; [reflexivity|].
  destruct (is_Exception e); [|reflexivity]. unfold bind.
  destruct (on_ext_logger_ok (LogError (py "Process instance failed")) s1 Hlog)
    as (s2 & ->). reflexivity.
Qed.

Lemma fake_lookup_CodeAct :
  dict_get AGENT_CLS_TO_FAKE_USER_RESPONSE_FN (py "CodeActAgent")
  = Some codeact_user_response.
Proof. unfold dict_get, AGENT_CLS_TO_FAKE_USER_RESPONSE_FN. by rewrite lookup_insert_eq. Qed.

Lemma build_instruction_Ok_inv instance agent instruction :
  build_instruction instance agent = Ok instruction ->
  class_name agent = py "CodeActAgent" /\
  exists text, instruction = text ++ CODEACT_SUFFIX.
Proof.
  intros Hb. destruct (decide (class_name agent = py "CodeActAgent")) as [Hcls|Hne];
    [|by apply build_instruction_unknown in Hb].
  split; [exact Hcls|]. unfold build_instruction in Hb.
  rewrite Hcls, suffix_lookup_CodeAct in Hb.
  destruct (list_getitem (choices (prepared instance)) 0),
    (list_getitem (choices (prepared instance)) 1),
    (list_getitem (choices (prepared instance)) 2),
    (list_getitem (choices (prepared instance)) 3); try discriminate.
  match type of Hb with Ok (?text ++ _) = _ => exists text end. congruence.
Qed.

(** The body of the [try] statement when the logger does not raise: it
    enters the agent loop once, in some world [w], and its result is
    what the loop returns there. *)
Lemma process_instance_body_run instance metadata reset_logger agent
    (instruction : str) (m : Machine ext) :
  build_instruction instance agent = Ok instruction ->
  (forall call x, (logger call x).1 = Ok tt) ->
  exists w s call,
    process_instance_body instance metadata reset_logger agent m
    = (outcome_for instance metadata instruction
         (run_agent_controller agent instruction (max_iterations metadata)
            (dict_get AGENT_CLS_TO_FAKE_USER_RESPONSE_FN (class_name agent))
            (instance_id instance) w).1, s) /\
    agent_loop_calls s = call :: agent_loop_calls m /\
    call_world call = w.
Proof.
  intros Hb Hlog.
  destruct (setup_workspace_run m) as (m1 & Hsw & _ & _ & _ & _ & _ & Hk1).
  unfold process_instance_body. unfold bind at 1. rewrite Hsw.
  unfold bind at 1.
  pose proof (ext_only_setup_logger instance metadata reset_logger m1) as H2.
  destruct (setup_logger_ok instance metadata reset_logger m1 Hlog) as (m2 & E2).
  rewrite E2 in H2 |- *. destruct H2 as (_ & _ & _ & Hk2). simpl in Hk2.
  unfold bind at 1.
  match goal with |- context [on_ext (logger ?c) m2] =>
    pose proof (ext_only_on_ext (logger c) m2) as H3;
    destruct (on_ext_logger_ok c m2 Hlog) as (m3 & E3) end.
  rewrite E3 in H3 |- *. destruct H3 as (_ & _ & _ & Hk3). simpl in Hk3.
  unfold bind at 1, lift. rewrite Hb.
  unfold bind at 1, invoke_agent. unfold bind at 1.
  exists (world m3).
  destruct (run_agent_controller agent instruction (max_iterations metadata)
              (dict_get AGENT_CLS_TO_FAKE_USER_RESPONSE_FN (class_name agent))
              (instance_id instance) (world m3)) as [r w4].
  cbn [fst]. destruct r as [[st|]|e]; cbn [outcome_for].
  - unfold ret, evaluate, bind.
    match goal with |- context [on_ext (logger ?c) ?s] =>
      pose proof (ext_only_on_ext (logger c) s) as H5;
      destruct (on_ext_logger_ok c s Hlog) as (s5 & E5) end.
    rewrite E5 in H5 |- *. destruct H5 as (_ & _ & _ & Hk5). simpl in Hk5.
    eexists s5, _. split; [reflexivity|].
    split; [rewrite Hk5; simpl; by rewrite Hk3, Hk2, Hk1|reflexivity].
  - unfold raise. eexists _, _. split; [reflexivity|].
    split; [simpl; by rewrite Hk3, Hk2, Hk1|reflexivity].
  - eexists _, _. split; [reflexivity|].
    split; [simpl; by rewrite Hk3, Hk2, Hk1|reflexivity].
Qed.

(** The same for [process_instance] after the agent is created. *)
Lemma process_instance_with_agent_run instance metadata reset_logger agent
    (m : Machine ext) :
  class_name agent = py "CodeActAgent" ->
  (4 <= length (choices (prepared instance)))%nat ->
  (forall call x, (logger call x).1 = Ok tt) ->
  exists instruction w call,
    build_instruction instance agent = Ok instruction /\
    agent_loop_calls
      (process_instance_with_agent instance metadata reset_logger agent m).2
      = call :: agent_loop_calls m /\
    call_world call = w /\
    (process_instance_with_agent instance metadata reset_logger agent m).1
    = outcome_for instance metadata instruction
        (run_agent_controller agent instruction (max_iterations metadata)
           (Some codeact_user_response) (instance_id instance) w).1.
Proof.
  intros Hcls Hlen Hlog.
  destruct (choices (prepared instance)) as [|c0 [|c1 [|c2 [|c3 rest]]]] eqn:Hch;
    simpl in Hlen; try lia.
  pose proof (build_instruction_CodeAct instance agent c0 c1 c2 c3 rest Hcls Hch)
    as Hb.
  destruct (process_instance_body_run instance metadata reset_logger agent _ m
              Hb Hlog) as (w & s & call & Hrun & Hcalls & Hw).
  rewrite Hcls, fake_lookup_CodeAct in Hrun.
  eexists _, w, call. split; [exact Hb|]. split; [|split; [exact Hw|]].
  - rewrite process_instance_with_agent_calls, Hrun. exact Hcalls.
  - rewrite process_instance_with_agent_result, try_except_logged by exact Hlog.
    by rewrite Hrun.
Qed.

(** X11: with an agent of class [CodeActAgent], an instance with its
    four choices and a logger that does not raise, [process_instance]
    enters the agent loop exactly once, and its result is decided by
    what the loop returns on that call: its exception is raised again, a
    missing state raises [AssertionError], and a state gives the output
    record with the score of its last message. *)
Theorem process_instance_outcome instance metadata reset_logger agent
    (m : Machine ext) :
  class_name agent = py "CodeActAgent" ->
  (4 <= length (choices (prepared instance)))%nat ->
  (forall call x, (logger call x).1 = Ok tt) ->
  exists instruction w call,
    build_instruction instance agent = Ok instruction /\
    agent_loop_calls
      (process_instance_with_agent instance metadata reset_logger agent m).2
      = call :: agent_loop_calls m /\
    call_world call = w /\
    (process_instance_with_agent instance metadata reset_logger agent m).1
    = match (run_agent_controller agent instruction (max_iterations metadata)
               (Some codeact_user_response) (instance_id instance) w).1 with
      | Ok (Some state) => Ok (output_for instance metadata instruction state)
      | Ok None => Raise (AssertionError (py "State should not be None."))
      | Raise e => Raise e
      end.
Proof.
  intros Hcls Hlen Hlog.
  destruct (process_instance_with_agent_run instance metadata reset_logger agent
              m Hcls Hlen Hlog) as (instruction & w & call & Hb & Hcalls & Hw & Hrun).
  exists instruction, w, call. by repeat split.
Qed.


Lemma try_except_Ok_inv {A} (body : M (Machine ext) A) (m : Machine ext) (a : A) :
  (try_except body
     (fun e =>
        let* _ := on_ext (logger (LogError (py "Process instance failed"))) in
        raise e) m).1 = Ok a ->
  (body m).1 = Ok a.
Proof.
  unfold try_except. destruct (body m) as [[a'|e] s1]; [done|].
  destruct (is_Exception e); [|done]. unfold bind, raise.
  destruct (on_ext _ s1) as [[[]|e2] s2]; done.
Qed.

(** What a normal return of the body tells. *)
Lemma process_instance_body_Ok_inv instance metadata reset_logger agent
    (out : Output) (m : Machine ext) :
  (process_instance_body instance metadata reset_logger agent m).1 = Ok out ->
  exists instruction st w w',
    build_instruction instance agent = Ok instruction /\
    run_agent_controller agent instruction (max_iterations metadata)
      (dict_get AGENT_CLS_TO_FAKE_USER_RESPONSE_FN (class_name agent))
      (instance_id instance) w = (Ok (Some st), w') /\
    out = output_for instance metadata instruction st.
Proof.
  destruct (setup_workspace_run m) as (m1 & Hsw & _).
  unfold process_instance_body. unfold bind at 1. rewrite Hsw.
  unfold bind at 1.
  destruct (setup_logger instance metadata reset_logger m1) as [[[]|e] m2];
    [|discriminate].
  unfold bind at 1.
  match goal with |- context [on_ext (logger ?c) m2] =>
    destruct (on_ext (logger c) m2) as [[[]|e] m3] end; [|discriminate].
  unfold bind at 1, lift.
  destruct (build_instruction instance agent) as [instruction|e]; [|discriminate].
  unfold bind at 1, invoke_agent. unfold bind at 1.
  destruct (run_agent_controller agent instruction (max_iterations metadata)
              (dict_get AGENT_CLS_TO_FAKE_USER_RESPONSE_FN (class_name agent))
              (instance_id instance) (world m3)) as [[[st|]|e] w4] eqn:E;
    try discriminate.
  unfold ret, evaluate, bind.
  match goal with |- context [on_ext (logger ?c) ?s] =>
    destruct (on_ext (logger c) s) as [[[]|e] s5] end; [|discriminate].
  simpl. intros [= <-]. exists instruction, st, (world m3), w4. auto.
Qed.

(** X13: [process_instance] returns normally only for an agent of class
    [CodeActAgent] whose loop returned a state; the output then carries
    the instance's ids, the instruction that was built, the state's
    history and metrics, the score of its last message, and its last
    error unless that is empty. *)
Theorem process_instance_returns instance metadata reset_logger agent
    (out : Output) (m : Machine ext) :
  (process_instance_with_agent instance metadata reset_logger agent m).1
    = Ok out ->
  class_name agent = py "CodeActAgent" /\
  exists instruction st w w',
    build_instruction instance agent = Ok instruction /\
    run_agent_controller agent instruction (max_iterations metadata)
      (Some codeact_user_response) (instance_id instance) w
      = (Ok (Some st), w') /\
    out = output_for instance metadata instruction st /\
    out_error out <> Some [].
Proof.
  rewrite process_instance_with_agent_result. intros H.
  apply try_except_Ok_inv, process_instance_body_Ok_inv in H
    as (instruction & st & w & w' & Hb & Hrun & ->).
  destruct (build_instruction_Ok_inv _ _ _ Hb) as [Hcls _].
  split; [exact Hcls|]. exists instruction, st, w, w'.
  rewrite Hcls, fake_lookup_CodeAct in Hrun.
  repeat split; try assumption.
  simpl. by destruct (last_error st) as [[|c e]|].
Qed.

(** X14: one call of [process_instance] enters the agent loop at most
    once, and only with an agent of class [CodeActAgent], the callback
    [codeact_user_response], the instance id as session id and an
    instruction that ends with the suffix of that class. *)
Theorem process_instance_agent_loop_calls instance metadata reset_logger
    (m : Machine ext) :
  exists new,
    agent_loop_calls (process_instance instance metadata reset_logger m).2
      = new ++ agent_loop_calls m /\
    (length new <= 1)%nat /\
    forall call, call ∈ new ->
      class_name (call_agent call) = py "CodeActAgent" /\
      call_fake_user_response_fn call = Some codeact_user_response /\
      call_sid call = instance_id instance /\
      exists text, call_instruction call = text ++ CODEACT_SUFFIX.
Proof.
  unfold process_instance, bind.
  pose proof (ext_only_on_ext
    (create_agent (agent_class metadata) (llm_config metadata)) m) as H0.
  destruct (on_ext _ m) as [[agent|e] m0]; simpl in H0;
    destruct H0 as (_ & _ & _ & Hk0).
  - rewrite process_instance_with_agent_calls.
    destruct (process_instance_body_calls instance metadata reset_logger agent m0)
      as [->|(call & instruction & -> & Hb & Hi & Ha & Hf & Hs & _)].
    + exists []. rewrite Hk0. split; [reflexivity|]. split; [simpl; lia|].
      intros call Hcall. by apply elem_of_nil in Hcall.
    + exists [call]. rewrite Hk0. split; [reflexivity|]. split; [simpl; lia|].
      intros call' Hcall. apply list_elem_of_singleton in Hcall. subst call'.
      destruct (build_instruction_Ok_inv _ _ _ Hb) as [Hcls Htext].
      rewrite Ha, Hf, Hs, Hi, Hcls, fake_lookup_CodeAct. auto.
  - exists []. simpl. rewrite Hk0. split; [reflexivity|]. split; [lia|].
    intros call Hcall. by apply elem_of_nil in Hcall.
Qed.

(** X15: when creating the agent raises, [process_instance] raises the
    same exception at once: no directory is made, the configuration is
    not written, the agent loop is not entered, and the outside world is
    left as the failed creation left it, so the failure is not logged by
    the driver. *)
Theorem process_instance_create_agent_fails instance metadata reset_logger
    (e : exn) (x : ext) (m : Machine ext) :
  create_agent (agent_class metadata) (llm_config metadata)
    (ext_state (world m)) = (Raise e, x) ->
  process_instance instance metadata reset_logger m
  = (Raise e,
     {| world := {| config := config (world m); dirs := dirs (world m);
                    getpid := getpid (world m); ext_state := x |};
        agent_loop_calls := agent_loop_calls m |}).
Proof.
  intros H. unfold process_instance, bind, on_ext, on_world. by rewrite H.
Qed.

End Runs.

Lemma process_instance_reraises_runtime_error :
  exists e',
    (process_instance_with_agent
       (C := scripted (Raise (OtherException (py "RuntimeError"))))
       paris_instance (metadata_for (py "CodeActAgent")) true codeact_agent
       machine0).1 = Raise e' /\
    (e' = OtherException (py "RuntimeError") \/
     (is_Exception (OtherException (py "RuntimeError")) = true /\
      exists x,
        (logger
           (Collaborators := scripted (Raise (OtherException (py "RuntimeError"))))
           (LogError (py "Process instance failed")) x).1 = Raise e')).
Proof.
  apply (process_instance_reraises
           (C := scripted (Raise (OtherException (py "RuntimeError"))))
           paris_instance (metadata_for (py "CodeActAgent")) true codeact_agent
           (OtherException (py "RuntimeError")) machine0).
  vm_compute. reflexivity.
Defined.

Lemma process_instance_outcome_budgeted :
  exists instruction w call,
    build_instruction paris_instance codeact_agent = Ok instruction /\
    agent_loop_calls
      (process_instance_with_agent (C := budgeted)
         paris_instance (metadata_for (py "CodeActAgent")) true codeact_agent
         machine0).2
      = call :: agent_loop_calls machine0 /\
    call_world call = w /\
    (process_instance_with_agent (C := budgeted)
       paris_instance (metadata_for (py "CodeActAgent")) true codeact_agent
       machine0).1
    = match (run_agent_controller (Collaborators := budgeted)
               codeact_agent instruction
               (max_iterations (metadata_for (py "CodeActAgent")))
               (Some codeact_user_response) (instance_id paris_instance) w).1 with
      | Ok (Some state) =>
          Ok (output_for paris_instance (metadata_for (py "CodeActAgent"))
                instruction state)
      | Ok None => Raise (AssertionError (py "State should not be None."))
      | Raise e => Raise e
      end.
Proof.
  apply (process_instance_outcome (C := budgeted)
           paris_instance (metadata_for (py "CodeActAgent")) true codeact_agent
           machine0).
  - reflexivity.
  - simpl. lia.
  - intros call x. reflexivity.
Defined.


Lemma process_instance_returns_B :
  class_name codeact_agent = py "CodeActAgent" /\
  exists instruction st w w',
    build_instruction paris_instance codeact_agent = Ok instruction /\
    run_agent_controller (Collaborators := scripted (Ok (Some answer_B)))
      codeact_agent instruction
      (max_iterations (metadata_for (py "CodeActAgent")))
      (Some codeact_user_response) (instance_id paris_instance) w
      = (Ok (Some st), w') /\
    output_for paris_instance (metadata_for (py "CodeActAgent"))
      paris_instruction answer_B
    = output_for paris_instance (metadata_for (py "CodeActAgent")) instruction st /\
    out_error
      (output_for paris_instance (metadata_for (py "CodeActAgent"))
         paris_instruction answer_B) <> Some [].
Proof.
  apply (process_instance_returns (C := scripted (Ok (Some answer_B)))
           paris_instance (metadata_for (py "CodeActAgent")) true codeact_agent
           (output_for paris_instance (metadata_for (py "CodeActAgent"))
              paris_instruction answer_B)
           machine0).
  vm_compute. reflexivity.
Defined.

Lemma process_instance_create_agent_fails_unregistered :
  process_instance (C := no_agent) paris_instance
    (metadata_for (py "FooAgent")) true machine0
  = (Raise (OtherException (py "AgentNotRegisteredError")), machine0).
Proof.
  apply (process_instance_create_agent_fails (C := no_agent) paris_instance
           (metadata_for (py "FooAgent")) true
           (OtherException (py "AgentNotRegisteredError")) [] machine0).
  reflexivity.
Defined.

(** ** More on the labelled choice *)

Section Label.
Context {RS : RandomSource}.

(** An element that occurs once in a list, up to order, occurs at one
    position only. *)
Lemma lookup_unique_in_Permutation {A} (l l' : list A) (c : A) (i j : nat) :
  l ≡ₚ c :: l' -> c ∉ l' ->
  l !! i = Some c -> l !! j = Some c -> i = j.
Proof.
  intros Hperm Hnot Hi Hj.
  pose proof (take_drop_middle l i c Hi) as Hsplit.
  assert (Hrest : take i l ++ drop (S i) l ≡ₚ l').
  { symmetry. apply (Permutation_cons_app_inv _ _ (a := c)).
    rewrite Hsplit. by symmetry. }
  destruct (Nat.lt_trichotomy j i) as [Hlt|[->|Hgt]]; [|reflexivity|].
  - destruct Hnot. rewrite <- Hrest. apply elem_of_app. left.
    apply list_elem_of_lookup. exists j. by rewrite lookup_take_lt.
  - destruct Hnot. rewrite <- Hrest. apply elem_of_app. right.
    apply list_elem_of_lookup. exists (j - S i)%nat. rewrite lookup_drop.
    by replace (S i + (j - S i))%nat with j by lia.
Qed.

(** X16: when the correct answer differs from the three incorrect
    ones, the prepared choices hold it at one position only, the one the
    correct letter stands for. *)
Theorem convert_instance_dict_unique_slot (instance : gmap str str) (g : rng)
    (q c i1 i2 i3 : str) :
  instance !! py "Question" = Some q ->
  instance !! py "Correct Answer" = Some c ->
  instance !! py "Incorrect Answer 1" = Some i1 ->
  instance !! py "Incorrect Answer 2" = Some i2 ->
  instance !! py "Incorrect Answer 3" = Some i3 ->
  c ∉ [i1; i2; i3] ->
  exists out g' index,
    convert_instance_dict instance g = (Ok out, g') /\
    py_chr (65 + N.of_nat index) = Ok (correct_solution out) /\
    forall j, choices out !! j = Some c <-> j = index.
Proof.
  intros Hq Hc H1 H2 H3 Hnot.
  destruct (convert_instance_dict_Ok instance g q c i1 i2 i3 Hq Hc H1 H2 H3)
    as (out & g' & index & Hrun & _ & Hperm & Hlt & _ & Hlook & _ & Hsol).
  exists out, g', index. split; [exact Hrun|]. split.
  - rewrite Hsol. unfold py_chr.
    destruct (N.ltb_spec (65 + N.of_nat index) 1114112); [reflexivity|lia].
  - intros j. split; [|by intros ->].
    intros Hj. by eapply lookup_unique_in_Permutation.
Qed.

End Label.

Lemma convert_instance_dict_unique_slot_paris :
  exists out g' index,
    convert_instance_dict (RS := tape_random) paris_record [3; 2; 0]%nat
      = (Ok out, g') /\
    py_chr (65 + N.of_nat index) = Ok (correct_solution out) /\
    forall j, choices out !! j = Some (py "Paris") <-> j = index.
Proof.
  apply (convert_instance_dict_unique_slot (RS := tape_random) paris_record
           [3; 2; 0]%nat (py "What is the capital of France?")
           (py "Paris") (py "London") (py "Rome") (py "Berlin"));
    try (vm_compute; reflexivity).
  intros H. repeat (apply elem_of_cons in H as [H|H]; [discriminate H|]).
  by apply elem_of_nil in H.
Defined.

(** ** The model at work *)

Example parse_letter :
  parse_final_answer (py "I think <<FINAL_ANSWER||B||FINAL_ANSWER>> is it")
  = py "B".
Proof. reflexivity. Qed.

Example parse_trimmed :
  parse_final_answer (py "<<FINAL_ANSWER||  C  ||FINAL_ANSWER>>") = py "C".
Proof. reflexivity. Qed.

Example parse_sentinel :
  parse_final_answer (py "no marker here") = NO_FINAL_ANSWER.
Proof. reflexivity. Qed.

(** The capture runs over line ends, and the first marker wins. *)
Example parse_multiline :
  parse_final_answer
    (py "<<FINAL_ANSWER||" ++ nl ++ py "D" ++ nl
       ++ py "||FINAL_ANSWER>> and <<FINAL_ANSWER||A||FINAL_ANSWER>>")
  = py "D".
Proof. reflexivity. Qed.

(** Without [re.DOTALL] the same pattern would stop at the line end. *)
Example search_without_dotall :
  re_search false pattern
    (py "<<FINAL_ANSWER||" ++ nl ++ py "D" ++ nl ++ py "||FINAL_ANSWER>>")
  = None.
Proof. reflexivity. Qed.

Example score_lower_case :
  get_test_result (py "<<FINAL_ANSWER||a||FINAL_ANSWER>>") (py "A") = false.
Proof. reflexivity. Qed.

(** The permutation [London, Paris, Rome, Berlin] labels Paris as B. *)
Example paris_is_B :
  (convert_instance_dict (RS := tape_random) paris_record [3; 2; 0]%nat).1
  = Ok {| question := py "What is the capital of France?";
          choices := [py "London"; py "Paris"; py "Rome"; py "Berlin"];
          correct_solution := py "B" |}.
Proof. vm_compute. reflexivity. Qed.

(** With the answers tagged by the field they come from: the slot
    labelled for [duplicate_record] under the draws [0, 0, 0] is slot 0,
    and it holds the text of the field [Incorrect Answer 1]. *)
Example duplicate_slot_origin :
  (shuffle (RS := tape_random)
     [(0%nat, py "X"); (1%nat, py "X"); (2%nat, py "Y"); (3%nat, py "Z")]
     [0; 0; 0]%nat).1
  = Ok [(1%nat, py "X"); (2%nat, py "Y"); (3%nat, py "Z"); (0%nat, py "X")] /\
  (convert_instance_dict (RS := tape_random) duplicate_record [0; 0; 0]%nat).1
  = Ok {| question := py "Which one?";
          choices := [py "X"; py "Y"; py "Z"; py "X"];
          correct_solution := py "A" |}.
Proof. split; vm_compute; reflexivity. Qed.

Example workspace_path_plain :
  eval_workspace_path (py "/mnt") 4242 = py "/mnt/_eval_workspace/4242".
Proof. reflexivity. Qed.

Example workspace_path_trailing_slash :
  eval_workspace_path (py "/mnt/") 4242 = py "/mnt/_eval_workspace/4242".
Proof. reflexivity. Qed.

Example workspace_path_empty_base :
  eval_workspace_path [] 4242 = py "_eval_workspace/4242".
Proof. reflexivity. Qed.

(** Making a directory twice: fine with [exist_ok=True], an error
    without. *)
Example mkdir_twice :
  let p := Path (py "/mnt/_eval_workspace/4242") in
  let fs := (Path_mkdir p true true ∅).2 in
  (Path_mkdir p true true ∅).1 = Ok tt /\
  is_dir p fs = true /\
  (Path_mkdir p true true fs).1 = Ok tt /\
  (Path_mkdir p true false fs).1 = Raise FileExistsError /\
  (Path_mkdir p false true ∅).1 = Raise FileNotFoundError.
Proof. repeat split; vm_compute; reflexivity. Qed.

(** A run that ends well: the answer is scored, the agent loop ran with
    the configuration at the workspace and the callback of its class,
    and the configuration is back afterwards although the agent loop had
    changed it. *)
Example run_returns :
  let r := process_instance (C := scripted (Ok (Some answer_B)))
             paris_instance (metadata_for (py "CodeActAgent")) true machine0 in
  (out_test_result <$> match r.1 with Ok out => Some out | Raise _ => None end)
    = Some true /\
  config (world r.2) = config (world machine0) /\
  (call_fake_user_response_fn <$> agent_loop_calls r.2)
    = [Some codeact_user_response] /\
  (workspace_mount_path ∘ config ∘ call_world <$> agent_loop_calls r.2)
    = [py "/mnt/_eval_workspace/4242"].
Proof. repeat split; vm_compute; reflexivity. Qed.

(** A run whose agent loop raises, and one whose agent loop returns no
    state: the exception goes to the caller, the failure is logged, and
    the configuration is back. *)
Example run_agent_loop_raises :
  let r := process_instance (C := scripted (Raise (OtherException (py "RuntimeError"))))
             paris_instance (metadata_for (py "CodeActAgent")) true machine0 in
  r.1 = Raise (OtherException (py "RuntimeError")) /\
  config (world r.2) = config (world machine0) /\
  head (ext_state (world r.2)) = Some (LogError (py "Process instance failed")).
Proof. repeat split; vm_compute; reflexivity. Qed.

Example run_no_state :
  let r := process_instance (C := scripted (Ok None))
             paris_instance (metadata_for (py "CodeActAgent")) true machine0 in
  r.1 = Raise (AssertionError (py "State should not be None.")) /\
  config (world r.2) = config (world machine0).
Proof. repeat split; vm_compute; reflexivity. Qed.

(** Setting up the workspace below [/mnt] in a tree that has [/data],
    [/data/old] and [/mnt]: the three stay, [/mnt/_eval_workspace] and
    [/mnt/_eval_workspace/4242] are made, and nothing else. *)
Example setup_workspace_with_dirs :
  let r := setup_workspace (C := scripted (Ok None)) machine_with_dirs in
  r.1 = Ok (py "/mnt/_eval_workspace/4242") /\
  bool_decide
    (dirs (world r.2)
     = {[ Path (py "/data"); Path (py "/data/old"); Path (py "/mnt");
          Path (py "/mnt/_eval_workspace");
          Path (py "/mnt/_eval_workspace/4242") ]}) = true.
Proof. split; vm_compute; reflexivity. Qed.

(** With the [budgeted] agent loop the same instance is scored when the
    loop has a budget and fails the assertion when it has none. *)
Example run_budgeted :
  (out_test_result <$>
     match (process_instance_with_agent (C := budgeted) paris_instance
              (metadata_for (py "CodeActAgent")) true codeact_agent machine0).1
     with Ok out => Some out | Raise _ => None end) = Some true /\
  (process_instance_with_agent (C := budgeted) paris_instance
     {| agent_class := py "CodeActAgent"; llm_config := py "llm";
        max_iterations := 0; eval_output_dir := py "out" |}
     true codeact_agent machine0).1
  = Raise (AssertionError (py "State should not be None.")).
Proof. split; vm_compute; reflexivity. Qed.

(** The empty record fails on the first field read, and a record that
    lacks two answer fields fails on the earlier of the two. *)
Example first_missing_field :
  (convert_instance_dict (RS := tape_random) ∅ [3; 2; 0]%nat).1
    = Raise (KeyError (py "Question")) /\
  (convert_instance_dict (RS := tape_random)
     (delete (py "Incorrect Answer 2") (delete (py "Correct Answer") paris_record))
     [3; 2; 0]%nat).1
    = Raise (KeyError (py "Correct Answer")).
Proof. split; vm_compute; reflexivity. Qed.
